(** * ProjectPackageJson: the package manifest service of the CLI core

    A shallow embedding of
    [packages/cli-core/src/services/ProjectPackageJson.ts] and of the
    fragments of the JavaScript runtime and of the libraries it calls
    ([semver] 7.3.2, [getValue] of the DI core, [String.prototype.replace],
    [JSON.stringify], [Object.entries]).

    Layout: the runtime model ([Js]), the two library models ([Semver],
    [Core]), the service itself, then the lemmas and the properties of the
    specification. *)

From Stdlib Require Import String Ascii List ZArith NArith Lia Bool.
From Stdlib Require Import Permutation Sorted DecimalString DecimalN DecimalZ.
From Equations Require Import Equations.
Import ListNotations.

Local Open Scope list_scope.
Local Open Scope string_scope.

(** ** The JavaScript runtime fragment *)

Module Js.

(** Strings are sequences of code units; the model covers the code units
    below 256, which is where package names and versions live. *)

Definition chr (n : nat) : string := String (ascii_of_nat n) EmptyString.
Definition nl : string := chr 10.
Definition dquote : string := chr 34.
Definition backslash : string := chr 92.

Definition code (c : ascii) : nat := nat_of_ascii c.

Definition between (lo hi : nat) (c : ascii) : bool :=
  (lo <=? code c)%nat && (code c <=? hi)%nat.

Definition is_digit (c : ascii) : bool := between 48 57 c.
Definition is_upper (c : ascii) : bool := between 65 90 c.
Definition is_lower (c : ascii) : bool := between 97 122 c.
Definition is_alpha (c : ascii) : bool := is_upper c || is_lower c.

(** The regular expression class [\w]. *)
Definition is_word (c : ascii) : bool :=
  is_alpha c || is_digit c || Ascii.eqb c "_".

Fixpoint all_chars (p : ascii -> bool) (s : string) : bool :=
  match s with
  | EmptyString => true
  | String c r => p c && all_chars p r
  end.

(** [s.startsWith(p)] *)
Definition startsWith (s p : string) : bool := String.prefix p s.

(** [a < b] on strings: code unit by code unit. *)
Definition str_lt (a b : string) : bool := String.ltb a b.

(** [s.split(sep)] for a one character separator. *)
Fixpoint split_on (sep : ascii) (s : string) : list string :=
  match s with
  | EmptyString => [EmptyString]
  | String c r =>
      if Ascii.eqb c sep then EmptyString :: split_on sep r
      else match split_on sep r with
           | [] => [String c EmptyString]
           | w :: ws => String c w :: ws
           end
  end.

(** [Array.prototype.join] on strings. *)
Definition join (sep : string) (l : list string) : string := String.concat sep l.

(** Decimal numerals. *)
Definition decimal_of_N (n : N) : string := NilZero.string_of_uint (N.to_uint n).
Definition N_of_decimal (s : string) : option N :=
  option_map N.of_uint (NilZero.uint_of_string s).
Definition decimal_of_Z (z : Z) : string := NilZero.string_of_int (Z.to_int z).

(** *** Values

    The values a manifest and a substitution scope are made of.  Numbers
    are the integers (no fractions, no exponents); functions and symbols
    do not occur in JSON data and are left out. *)

#[warnings="-register-all"]
Inductive Value : Type :=
| Undefined
| Null
| Bool (b : bool)
| Num (z : Z)
| Str (s : string)
| Arr (items : list Value)
| Obj (props : list (string * Value)).

(** *** Objects as ordered property lists

    An object is the list of its own enumerable string-keyed properties in
    the order [Object.entries], spread and [JSON.stringify] visit them:
    array indices first, in ascending numeric order, then the other keys
    in the order they were created. *)

Definition Dict (A : Type) : Type := list (string * A).

Definition keys {A} (o : Dict A) : list string := map fst o.

Definition entries {A} (o : Dict A) : list (string * A) := o.

Fixpoint get {A} (k : string) (o : Dict A) : option A :=
  match o with
  | [] => None
  | (k', v) :: r => if String.eqb k' k then Some v else get k r
  end.

Definition has {A} (k : string) (o : Dict A) : bool :=
  match get k o with Some _ => true | None => false end.

(** A key is an array index when it is the canonical numeral of an integer
    below 2^32 - 1. *)
Definition array_index (k : string) : option N :=
  match N_of_decimal k with
  | Some n =>
      if String.eqb (decimal_of_N n) k && (n <=? 4294967294)%N then Some n else None
  | None => None
  end.

Fixpoint update {A} (k : string) (v : A) (o : Dict A) : Dict A :=
  match o with
  | [] => []
  | (k', v') :: r =>
      if String.eqb k' k then (k', v) :: r else (k', v') :: update k v r
  end.

Fixpoint insert_index {A} (n : N) (k : string) (v : A) (o : Dict A) : Dict A :=
  match o with
  | [] => [(k, v)]
  | (k', v') :: r =>
      match array_index k' with
      | Some n' =>
          if (n' <? n)%N then (k', v') :: insert_index n k v r else (k, v) :: o
      | None => (k, v) :: o
      end
  end.

(** [o[k] = v], also [{...o, [k]: v}]: an existing property keeps its
    place, a new one goes where the enumeration order puts it. *)
Definition set {A} (k : string) (v : A) (o : Dict A) : Dict A :=
  if has k o then update k v o
  else match array_index k with
       | Some n => insert_index n k v o
       | None => (o ++ [(k, v)])%list
       end.

(** [{...a, ...b}] *)
Definition spread {A} (a b : Dict A) : Dict A :=
  fold_left (fun acc kv => set (fst kv) (snd kv) acc) b a.

(** The object literal built from a list of properties, in order. *)
Definition literal {A} (props : list (string * A)) : Dict A := spread [] props.

(** [Array.prototype.sort(cmp)]: insertion by the comparator, which is
    what every engine computes when [cmp] is a consistent order (the keys
    of an object are pairwise different). *)
Section Sort.
Context {A : Type} (cmp : A -> A -> Z).

Fixpoint sort_insert (x : A) (l : list A) : list A :=
  match l with
  | [] => [x]
  | y :: r => if (cmp x y <=? 0)%Z then x :: l else y :: sort_insert x r
  end.

Definition sort (l : list A) : list A := fold_right sort_insert [] l.
End Sort.

(** *** ToString *)

Fixpoint toString (v : Value) : string :=
  match v with
  | Undefined => "undefined"
  | Null => "null"
  | Bool true => "true"
  | Bool false => "false"
  | Num z => decimal_of_Z z
  | Str s => s
  | Arr items =>
      join ","
        ((fix each (l : list Value) : list string :=
            match l with
            | [] => []
            | Undefined :: r => EmptyString :: each r
            | Null :: r => EmptyString :: each r
            | x :: r => toString x :: each r
            end) items)
  | Obj _ => "[object Object]"
  end.

(** Truthiness, as [&&], [||] and [while] test it. *)
Definition truthy (v : Value) : bool :=
  match v with
  | Undefined | Null => false
  | Bool b => b
  | Num z => negb (z =? 0)%Z
  | Str s => negb (String.eqb s EmptyString)
  | Arr _ | Obj _ => true
  end.

(** [a && b] *)
Definition and_ (a b : Value) : Value := if truthy a then b else a.

(** [l.filter(Boolean)] *)
Definition filter_Boolean (l : list Value) : list Value := filter truthy l.

(** [v[k]] on a value that is neither [undefined] nor [null]: the own
    properties of an object; inherited and built-in properties (methods,
    [length]) are not part of the model and read as [undefined]. *)
Definition prop (k : string) (v : Value) : Value :=
  match v with
  | Obj props => match get k props with Some x => x | None => Undefined end
  | _ => Undefined
  end.

(** *** String.prototype.replace *)

(** [s.indexOf(pat)] *)
Fixpoint indexOf (pat s : string) : option nat :=
  if String.prefix pat s then Some 0%nat
  else match s with
       | EmptyString => None
       | String _ r => option_map S (indexOf pat r)
       end.

(** GetSubstitution for a pattern without capture groups: [$$], [$&],
    [$`] and [$'] are expanded, every other [$] stands for itself. *)
Fixpoint getSubstitution (matched before after template : string) : string :=
  match template with
  | EmptyString => EmptyString
  | String c rest =>
      if Ascii.eqb c "$" then
        match rest with
        | String d rest' =>
            if Ascii.eqb d "$" then
              "$" ++ getSubstitution matched before after rest'
            else if Ascii.eqb d "&" then
              matched ++ getSubstitution matched before after rest'
            else if Ascii.eqb d "`" then
              before ++ getSubstitution matched before after rest'
            else if Ascii.eqb d "'" then
              after ++ getSubstitution matched before after rest'
            else String c (getSubstitution matched before after rest)
        | EmptyString => String c EmptyString
        end
      else String c (getSubstitution matched before after rest)
  end.

(** [s.replace(pat, replacement)] with a string pattern: the first
    occurrence only. *)
Definition replace_string (pat replacement s : string) : string :=
  match indexOf pat s with
  | None => s
  | Some i =>
      let before := String.substring 0 i s in
      let after :=
        String.substring (i + String.length pat)
          (String.length s - (i + String.length pat)) s in
      before ++ getSubstitution pat before after replacement ++ after
  end.

(** The longest prefix of [s] made of characters of class [p], and what
    follows it: a greedy [p+] against a continuation that starts outside
    [p]. *)
Fixpoint span (p : ascii -> bool) (s : string) : string * string :=
  match s with
  | EmptyString => (EmptyString, EmptyString)
  | String c r =>
      if p c then let (w, rest) := span p r in (String c w, rest)
      else (EmptyString, s)
  end.

(** *** JSON.stringify(value, null, 2) *)

Definition hex_digit (n : nat) : string :=
  String.substring n 1 "0123456789abcdef".

(** QuoteJSONString, one code unit. *)
Definition quote_char (c : ascii) : string :=
  let n := code c in
  if (n =? 8)%nat then backslash ++ "b"
  else if (n =? 9)%nat then backslash ++ "t"
  else if (n =? 10)%nat then backslash ++ "n"
  else if (n =? 12)%nat then backslash ++ "f"
  else if (n =? 13)%nat then backslash ++ "r"
  else if (n =? 34)%nat then backslash ++ dquote
  else if (n =? 92)%nat then backslash ++ backslash
  else if (n <? 32)%nat then
    backslash ++ "u00" ++ hex_digit (n / 16) ++ hex_digit (n mod 16)
  else String c EmptyString.

Fixpoint quote_chars (s : string) : string :=
  match s with
  | EmptyString => EmptyString
  | String c r => quote_char c ++ quote_chars r
  end.

Definition quote (s : string) : string := dquote ++ quote_chars s ++ dquote.

Definition gap : string := "  ".

Definition wrap (opening closing indent inner : string) (partial : list string) : string :=
  match partial with
  | [] => opening ++ closing
  | _ =>
      opening ++ nl ++ inner ++ join ("," ++ nl ++ inner) partial
      ++ nl ++ indent ++ closing
  end.

(** SerializeJSONProperty: [None] is the [undefined] result, which drops a
    property from an object and prints as [null] in an array. *)
Fixpoint serialize (indent : string) (v : Value) {struct v} : option string :=
  match v with
  | Undefined => None
  | Null => Some "null"
  | Bool true => Some "true"
  | Bool false => Some "false"
  | Num z => Some (decimal_of_Z z)
  | Str s => Some (quote s)
  | Arr items =>
      let inner := indent ++ gap in
      Some (wrap "[" "]" indent inner
        ((fix each (l : list Value) : list string :=
            match l with
            | [] => []
            | x :: r =>
                match serialize inner x with
                | Some t => t :: each r
                | None => "null" :: each r
                end
            end) items))
  | Obj props =>
      let inner := indent ++ gap in
      Some (wrap "{" "}" indent inner
        ((fix each (l : list (string * Value)) : list string :=
            match l with
            | [] => []
            | (k, x) :: r =>
                match serialize inner x with
                | Some t => (quote k ++ ": " ++ t) :: each r
                | None => each r
                end
            end) props))
  end.

(** [JSON.stringify(o, null, 2)] for an object [o]. *)
Definition stringify (o : Dict Value) : string :=
  match serialize EmptyString (Obj o) with
  | Some t => t
  | None => "undefined"
  end.

(** *** Completions

    What a call that may throw, or an observable that may fail, ends
    with.  A failure is a subprocess failure as the process runner reports
    it (message and captured error stream), or a plain [Error]. *)

Inductive Failure : Type :=
| ExecaError (message stderr : string)
| Error (message : string).

Definition message_of (e : Failure) : string :=
  match e with
  | ExecaError m _ => m
  | Error m => m
  end.

Inductive Completion (A : Type) : Type :=
| Normal (a : A)
| Throw (e : Failure).
Arguments Normal {A} a.
Arguments Throw {A} e.

End Js.

(** ** semver 7.3.2, [valid]

    [semver.valid(version)] in strict mode: the whole version is an
    optional [v], three numeric identifiers separated by dots, then
    optionally a hyphen and dot-separated prerelease identifiers, then
    optionally a plus sign and dot-separated build identifiers.  A numeric
    identifier is [0] or digits without a leading zero; a prerelease
    identifier is a numeric identifier or a run of letters, digits and
    hyphens with at least one non-digit; a build identifier is any
    non-empty run of letters, digits and hyphens.  The version is at most
    256 characters long and its three numbers are safe integers.

    The result is the parsed version or [null]; the service only tests it
    for truth, so the model answers with a boolean.  Range expressions are
    the business of [validRange], which the service does not call. *)

Module Semver.

Definition MAX_LENGTH : nat := 256.
Definition MAX_SAFE_INTEGER : N := 9007199254740991.

Definition is_ident_char (c : ascii) : bool :=
  Js.is_digit c || Js.is_alpha c || Ascii.eqb c "-".

Definition nonempty (s : string) : bool :=
  match s with EmptyString => false | _ => true end.

(** [0], or digits that do not start with [0]. *)
Definition NUMERICIDENTIFIER (s : string) : bool :=
  match s with
  | EmptyString => false
  | String c r =>
      Js.all_chars Js.is_digit s
      && (negb (Ascii.eqb c "0") || negb (nonempty r))
  end.

(** Letters, digits and hyphens, not all of them digits. *)
Definition NONNUMERICIDENTIFIER (s : string) : bool :=
  Js.all_chars is_ident_char s && negb (Js.all_chars Js.is_digit s).

Definition PRERELEASEIDENTIFIER (s : string) : bool :=
  NUMERICIDENTIFIER s || NONNUMERICIDENTIFIER s.

(** A non-empty run of letters, digits and hyphens. *)
Definition BUILDIDENTIFIER (s : string) : bool :=
  nonempty s && Js.all_chars is_ident_char s.

(** The text before the first [sep], and the text after it when there is
    one. *)
Fixpoint cut (sep : ascii) (s : string) : string * option string :=
  match s with
  | EmptyString => (EmptyString, None)
  | String c r =>
      if Ascii.eqb c sep then (EmptyString, Some r)
      else let (a, b) := cut sep r in (String c a, b)
  end.

Definition dotted (p : string -> bool) (part : option string) : bool :=
  match part with
  | None => true
  | Some s => forallb p (Js.split_on "." s)
  end.

(** The match of FULL: the three numbers of the main version. *)
Definition FULL (version : string) : option (string * string * string) :=
  let body :=
    match version with
    | String c r => if Ascii.eqb c "v" then r else version
    | EmptyString => version
    end in
  let (front, build) := cut "+" body in
  let (main, prerelease) := cut "-" front in
  match Js.split_on "." main with
  | [major; minor; patch] =>
      if NUMERICIDENTIFIER major && NUMERICIDENTIFIER minor
         && NUMERICIDENTIFIER patch
         && dotted PRERELEASEIDENTIFIER prerelease
         && dotted BUILDIDENTIFIER build
      then Some (major, minor, patch) else None
  | _ => None
  end.

Definition safe (number : string) : bool :=
  match Js.N_of_decimal number with
  | Some n => (n <=? MAX_SAFE_INTEGER)%N
  | None => false
  end.

Definition valid (version : string) : bool :=
  (String.length version <=? MAX_LENGTH)%nat
  && match FULL version with
     | Some (major, minor, patch) => safe major && safe minor && safe patch
     | None => false
     end.

End Semver.

(** ** [getValue] of the DI core *)

Module Core.

(** Modelled from the spec: [getValue(expression, scope)] of the DI core
    library, which is not part of the sources; the dotted-path lookup
    of section 4.1.  The path is split at the dots and followed key by
    key while the value reached is truthy; what the last step reads is
    the result, [undefined] when the property is not there. *)
Fixpoint follow (path : list string) (scope : Js.Value) : Js.Value :=
  match path with
  | [] => scope
  | key :: rest =>
      let found := Js.prop key scope in
      match rest with
      | [] => found
      | _ => if Js.truthy found then follow rest found else found
      end
  end.

Definition getValue (expression : string) (scope : Js.Value) : Js.Value :=
  match expression with
  | EmptyString => scope
  | _ => follow (Js.split_on "." expression) scope
  end.

End Core.

(** ** The service *)

(** Modelled from the spec: the [PackageJson] interface
    (interfaces/PackageJson), which is not among the sources; section 3
    gives its shape: name, version, description, the three string maps and
    an open-ended bag of further top-level fields.  The record lists the
    typed fields in the order [getEmptyPackageJson] creates them; [extra]
    holds the other fields in creation order. *)
Record PackageJson : Type := {
  name : string;
  version : string;
  description : string;
  scripts : Js.Dict string;
  dependencies : Js.Dict string;
  devDependencies : Js.Dict string;
  extra : Js.Dict Js.Value
}.

(** One top-level property with a value of the declared type. *)
Inductive Field : Type :=
| FName (s : string)
| FVersion (s : string)
| FDescription (s : string)
| FScripts (d : Js.Dict string)
| FDependencies (d : Js.Dict string)
| FDevDependencies (d : Js.Dict string)
| FOther (key : string) (value : Js.Value).

Definition with_name (s : string) (raw : PackageJson) : PackageJson :=
  {| name := s; version := version raw; description := description raw;
     scripts := scripts raw; dependencies := dependencies raw;
     devDependencies := devDependencies raw; extra := extra raw |}.

Definition with_version (s : string) (raw : PackageJson) : PackageJson :=
  {| name := name raw; version := s; description := description raw;
     scripts := scripts raw; dependencies := dependencies raw;
     devDependencies := devDependencies raw; extra := extra raw |}.

Definition with_description (s : string) (raw : PackageJson) : PackageJson :=
  {| name := name raw; version := version raw; description := s;
     scripts := scripts raw; dependencies := dependencies raw;
     devDependencies := devDependencies raw; extra := extra raw |}.

Definition with_scripts (d : Js.Dict string) (raw : PackageJson) : PackageJson :=
  {| name := name raw; version := version raw; description := description raw;
     scripts := d; dependencies := dependencies raw;
     devDependencies := devDependencies raw; extra := extra raw |}.

Definition with_dependencies (d : Js.Dict string) (raw : PackageJson) : PackageJson :=
  {| name := name raw; version := version raw; description := description raw;
     scripts := scripts raw; dependencies := d;
     devDependencies := devDependencies raw; extra := extra raw |}.

Definition with_devDependencies (d : Js.Dict string) (raw : PackageJson) : PackageJson :=
  {| name := name raw; version := version raw; description := description raw;
     scripts := scripts raw; dependencies := dependencies raw;
     devDependencies := d; extra := extra raw |}.

Definition with_extra (d : Js.Dict Js.Value) (raw : PackageJson) : PackageJson :=
  {| name := name raw; version := version raw; description := description raw;
     scripts := scripts raw; dependencies := dependencies raw;
     devDependencies := devDependencies raw; extra := d |}.

(** [raw[key] = value] for a value of the declared type. *)
Definition put (f : Field) (raw : PackageJson) : PackageJson :=
  match f with
  | FName s => with_name s raw
  | FVersion s => with_version s raw
  | FDescription s => with_description s raw
  | FScripts d => with_scripts d raw
  | FDependencies d => with_dependencies d raw
  | FDevDependencies d => with_devDependencies d raw
  | FOther key value => with_extra (Js.set key value (extra raw)) raw
  end.

(** A string map as a value, and back. *)
Definition strings (d : Js.Dict string) : Js.Dict Js.Value :=
  map (fun kv => (fst kv, Js.Str (snd kv))) d.

Fixpoint as_strings (props : Js.Dict Js.Value) : option (Js.Dict string) :=
  match props with
  | [] => Some []
  | (k, Js.Str s) :: r => option_map (cons (k, s)) (as_strings r)
  | _ => None
  end.

Definition as_string_map (v : Js.Value) : option (Js.Dict string) :=
  match v with
  | Js.Obj props => as_strings props
  | _ => None
  end.

(** The typed reading of [raw[key] = data] for [data] of type [any]: [None]
    when [key] is one of the declared fields and [data] is not of its
    declared type, which the record cannot hold. *)
Definition field_of (key : string) (data : Js.Value) : option Field :=
  if String.eqb key "name" then
    match data with Js.Str s => Some (FName s) | _ => None end
  else if String.eqb key "version" then
    match data with Js.Str s => Some (FVersion s) | _ => None end
  else if String.eqb key "description" then
    match data with Js.Str s => Some (FDescription s) | _ => None end
  else if String.eqb key "scripts" then
    option_map FScripts (as_string_map data)
  else if String.eqb key "dependencies" then
    option_map FDependencies (as_string_map data)
  else if String.eqb key "devDependencies" then
    option_map FDevDependencies (as_string_map data)
  else Some (FOther key data).

(** The manifest as the object it is at run time. *)
Definition object_of (raw : PackageJson) : Js.Dict Js.Value :=
  Js.spread
    [ ("name", Js.Str (name raw));
      ("version", Js.Str (version raw));
      ("description", Js.Str (description raw));
      ("scripts", Js.Obj (strings (scripts raw)));
      ("dependencies", Js.Obj (strings (dependencies raw)));
      ("devDependencies", Js.Obj (strings (devDependencies raw))) ]
    (extra raw).

(** The injected configuration: the project name, [project.rootDir] and
    [project.root]. *)
Record Configuration : Type := {
  configuration_name : string;
  rootDir : string;
  root : option string
}.

Inductive PackageManager : Type := npm | yarn.

(** [InstallOptions]; [verbose] is read out of the open-ended part. *)
Record InstallOptions : Type := {
  packageManager : option PackageManager;
  verbose : Js.Value
}.

Definition getEmptyPackageJson (configuration : Configuration) : PackageJson :=
  {| name := configuration_name configuration;
     version := "1.0.0";
     description := EmptyString;
     scripts := [];
     dependencies := [];
     devDependencies := [];
     extra := [] |}.

Definition has_valid_version (info : string * string) : bool :=
  Semver.valid (snd info).

Definition toString (info : string * string) : string :=
  if String.eqb (snd info) "latest" then fst info
  else Js.join "@" [fst info; snd info].

Definition invalidEntries (deps : Js.Dict string) : list (string * string) :=
  filter (fun info => negb (Semver.valid (snd info))) (Js.entries deps).

Definition mapPackagesWithInvalidVersion (deps : Js.Dict string) : list string :=
  map toString (invalidEntries deps).

Definition compareKeys {A} (k1 k2 : string * A) : Z :=
  if Js.str_lt (fst k1) (fst k2) then (-1)%Z else 1%Z.

Definition sortKeys {A} (obj : Js.Dict A) : Js.Dict A :=
  fold_left (fun obj kv => Js.set (fst kv) (snd kv) obj)
            (Js.sort compareKeys (Js.entries obj)) [].

Definition mapPackagesWithValidVersion (deps : Js.Dict string) : Js.Dict string :=
  fold_left
    (fun deps kv =>
       if Semver.valid (snd kv) then Js.set (fst kv) (snd kv) deps else deps)
    (Js.entries deps) [].

(** The service object: the manifest, the two flags, and the injected
    configuration. *)
Record ProjectPackageJson : Type := {
  raw : PackageJson;
  rewrite : bool;
  reinstall : bool;
  configuration : Configuration
}.

Definition with_raw (r : PackageJson) (p : ProjectPackageJson) : ProjectPackageJson :=
  {| raw := r; rewrite := rewrite p; reinstall := reinstall p;
     configuration := configuration p |}.

Definition with_rewrite (b : bool) (p : ProjectPackageJson) : ProjectPackageJson :=
  {| raw := raw p; rewrite := b; reinstall := reinstall p;
     configuration := configuration p |}.

Definition with_reinstall (b : bool) (p : ProjectPackageJson) : ProjectPackageJson :=
  {| raw := raw p; rewrite := rewrite p; reinstall := b;
     configuration := configuration p |}.

Definition dir (p : ProjectPackageJson) : string := rootDir (configuration p).

Definition allDependencies (p : ProjectPackageJson) : Js.Dict string :=
  Js.spread (Js.spread [] (dependencies (raw p))) (devDependencies (raw p)).

Definition set_name (s : string) (p : ProjectPackageJson) : ProjectPackageJson :=
  with_rewrite true (with_raw (with_name s (raw p)) p).

(** [version] is a string, as the map type declares. *)
Definition addDevDependency (pkg version : string) (p : ProjectPackageJson)
  : ProjectPackageJson :=
  with_rewrite true
    (with_reinstall true
       (with_raw
          (with_devDependencies (Js.set pkg version (devDependencies (raw p))) (raw p))
          p)).

Definition addDependency (pkg version : string) (p : ProjectPackageJson)
  : ProjectPackageJson :=
  with_rewrite true
    (with_reinstall true
       (with_raw
          (with_dependencies (Js.set pkg version (dependencies (raw p))) (raw p))
          p)).

(** The key characters of the token pattern: [\w] and the dot. *)
Definition is_key_char (c : ascii) : bool := Js.is_word c || Ascii.eqb c ".".

(** One match of the token pattern (two opening braces, one or more key
    characters, two closing braces) at the start of [s]: the key, and the
    text after the match. *)
Definition match_token (s : string) : option (string * string) :=
  match s with
  | String a (String b r) =>
      if Ascii.eqb a "{" && Ascii.eqb b "{" then
        match Js.span is_key_char r with
        | (EmptyString, _) => None
        | (key, String c (String d rest)) =>
            if Ascii.eqb c "}" && Ascii.eqb d "}" then Some (key, rest) else None
        | _ => None
        end
      else None
  | _ => None
  end.

(** A token: two opening braces, the key, two closing braces. *)
Definition token (key : string) : string := "{{" ++ key ++ "}}".

(** A key the token pattern accepts. *)
Definition is_key (key : string) : Prop :=
  key <> EmptyString /\ Js.all_chars is_key_char key = true.

(** The first character of [t], if any, is outside the class [p]. *)
Definition starts_outside (p : ascii -> bool) (t : string) : Prop :=
  match t with
  | EmptyString => True
  | String c _ => p c = false
  end.

Lemma span_length (p : ascii -> bool) (s : string) :
  String.length (fst (Js.span p s)) + String.length (snd (Js.span p s))
  = String.length s.
Proof.
  induction s as [|c r IH]; simpl; [reflexivity|].
  destruct (p c); simpl; [|reflexivity].
  destruct (Js.span p r) as [w rest]; simpl in *. lia.
Qed.

Lemma match_token_shorter (s key rest : string) :
  match_token s = Some (key, rest) -> String.length rest < String.length s.
Proof.
  unfold match_token.
  destruct s as [|a [|b r]]; try discriminate.
  destruct (Ascii.eqb a "{" && Ascii.eqb b "{"); try discriminate.
  pose proof (span_length is_key_char r) as L.
  destruct (Js.span is_key_char r) as [w t]; simpl in L.
  destruct w as [|w0 w']; try discriminate.
  destruct t as [|c [|d t']]; try discriminate.
  destruct (Ascii.eqb c "}" && Ascii.eqb d "}"); try discriminate.
  intros E. injection E as _ <-. simpl in *. lia.
Qed.

Definition inspect {A} (a : A) : {b : A | a = b} := exist _ a eq_refl.

(** [s.replace(/{{([\w.]+)}}/gi, replacer)]: the string is scanned from the
    left; a match is replaced by the text of what [replacer] returns for
    its key and the scan goes on after the match, any other character is
    kept. *)
Equations? replace_tokens (replacer : string -> Js.Value) (s : string) : string
  by wf (String.length s) lt :=
  replace_tokens replacer EmptyString := EmptyString;
  replace_tokens replacer (String c r) with inspect (match_token (String c r)) := {
    | exist _ (Some (key, rest)) _ :=
        Js.toString (replacer key) ++ replace_tokens replacer rest;
    | exist _ None _ := String c (replace_tokens replacer r) }.
Proof.
  exact (match_token_shorter (String c r) key rest e).
Qed.

(** [scope] and [ctx] are objects ([{}] when the caller passes none). *)
Definition replacer (scope : Js.Dict Js.Value) (key : string) : Js.Value :=
  Core.getValue key (Js.Obj scope).

(** [version || ""] *)
Definition version_or_empty (version : option string) : string :=
  match version with
  | Some v => v
  | None => EmptyString
  end.

Definition devVersion (scope : Js.Dict Js.Value) (version : option string) : string :=
  replace_tokens (replacer scope) (version_or_empty version).

Definition addDevDependencies (modules : Js.Dict (option string))
  (scope : Js.Dict Js.Value) (p : ProjectPackageJson) : ProjectPackageJson :=
  fold_left
    (fun p kv => addDevDependency (fst kv) (devVersion scope (snd kv)) p)
    (Js.entries modules) p.

Definition depVersion (ctx : Js.Dict Js.Value) (version : option string) : string :=
  replace_tokens (replacer ctx)
    (Js.replace_string "{{tsedVersion}}"
       (Js.toString (Js.prop "tsedVersion" (Js.Obj ctx)))
       (version_or_empty version)).

Definition addDependencies (modules : Js.Dict (option string))
  (ctx : Js.Dict Js.Value) (p : ProjectPackageJson) : ProjectPackageJson :=
  fold_left
    (fun p kv => addDependency (fst kv) (depVersion ctx (snd kv)) p)
    (Js.entries modules) p.

Definition addScript (task cmd : string) (p : ProjectPackageJson) : ProjectPackageJson :=
  with_rewrite true
    (with_raw (with_scripts (Js.set task cmd (scripts (raw p))) (raw p)) p).

Definition addScripts (scripts : Js.Dict string) (p : ProjectPackageJson)
  : ProjectPackageJson :=
  fold_left (fun p kv => addScript (fst kv) (snd kv) p) (Js.entries scripts) p.

Definition add (key : string) (data : Js.Value) (p : ProjectPackageJson)
  : option ProjectPackageJson :=
  option_map (fun f => with_rewrite true (with_raw (put f (raw p)) p))
             (field_of key data).

Definition includes (l : list string) (key : string) : bool :=
  existsb (String.eqb key) l.

Definition set (key : string) (value : Js.Value) (p : ProjectPackageJson)
  : option ProjectPackageJson :=
  option_map
    (fun f =>
       let p := with_rewrite true (with_raw (put f (raw p)) p) in
       if includes ["dependencies"; "devDependencies"; "peerDependencies"] key
       then with_reinstall true p else p)
    (field_of key value).

Definition get (key : string) (p : ProjectPackageJson) : Js.Value :=
  Js.prop key (Js.Obj (object_of (raw p))).

(** *** Collaborators *)

(** What the observable of a subprocess ends with.  A failure carries the
    message and the captured error stream of the subprocess. *)
Inductive RunResult : Type :=
| Completed
| Failed (message stderr : string).

(** What [readPkgUp.sync] finds: the path of the manifest file and its
    fields in file order. *)
Record ReadResult : Type := {
  path : string;
  packageJson : list Field
}.

(** Modelled from the spec: the injected services [CliFs] and [CliExeca],
    which are not among the sources, with [path.join], [path.dirname],
    [process.argv] and [readPkgUp.sync], as section 6 lists them.  They act
    on the world outside the service (disk, installed tools), of which
    nothing is assumed. *)
Record Collaborators (World : Type) : Type := {
  join : string -> string -> string;
  dirname : string -> string;
  argv_includes_init : bool;
  existsSync : string -> World -> bool;
  readPkgUp_sync : string -> World -> option ReadResult;
  writeFileSync : string -> string -> World -> Js.Completion unit * World;
  runSync : string -> list string -> World -> Js.Completion unit * World;
  run : string -> list Js.Value -> string -> World -> RunResult * World
}.
Arguments join {World} _ _ _.
Arguments dirname {World} _ _.
Arguments argv_includes_init {World} _.
Arguments existsSync {World} _ _ _.
Arguments readPkgUp_sync {World} _ _ _.
Arguments writeFileSync {World} _ _ _ _.
Arguments runSync {World} _ _ _ _.
Arguments run {World} _ _ _ _ _.

(** A task descriptor.  [task] names what the closure of the source does:
    call [write], run a command (piped through an error selector or not),
    or clean up. *)
Inductive Action : Type :=
| CallWrite
| CallRun (cmd : string) (args : list Js.Value) (cwd : string)
          (catchError : option (string -> string -> Js.Completion unit))
| CallClean.

Record Task : Type := {
  title : string;
  enabled : option (ProjectPackageJson -> bool);
  skip : option (ProjectPackageJson -> bool);
  task : Action
}.

Section Service.

Context {World : Type} (io : Collaborators World).

Definition useReadPkgUp (configuration : Configuration) (w : World) : bool :=
  negb (argv_includes_init io
        && negb (existsSync io (join io (rootDir configuration) "package.json") w)).

(** The manifest read, and the configuration after
    [configuration.set("project.root", ...)]. *)
Definition getPackageJson (configuration : Configuration) (w : World)
  : PackageJson * Configuration :=
  let empty := (getEmptyPackageJson configuration, configuration) in
  if useReadPkgUp configuration w then
    match readPkgUp_sync io (rootDir configuration) w with
    | Some result =>
        if Semver.nonempty (path result) then
          let configuration' :=
            {| configuration_name := configuration_name configuration;
               rootDir := rootDir configuration;
               root := Some (dirname io (path result)) |} in
          (fold_left (fun raw f => put f raw) (packageJson result)
                     (getEmptyPackageJson configuration'),
           configuration')
        else empty
    | None => empty
    end
  else empty.

Definition read (p : ProjectPackageJson) (w : World) : ProjectPackageJson :=
  let (r, c) := getPackageJson (configuration p) w in
  {| raw := r; rewrite := rewrite p; reinstall := reinstall p; configuration := c |}.

(** The field initializers and the constructor, which reads the manifest. *)
Definition construct (configuration : Configuration) (w : World) : ProjectPackageJson :=
  read
    {| raw :=
         {| name := EmptyString; version := "1.0.0"; description := EmptyString;
            scripts := []; dependencies := []; devDependencies := [];
            extra := [] |};
       rewrite := false;
       reinstall := false;
       configuration := configuration |}
    w.

(** The setter of [dir]. *)
Definition set_dir (dir : string) (p : ProjectPackageJson) (w : World)
  : ProjectPackageJson :=
  read
    {| raw := raw p; rewrite := rewrite p; reinstall := reinstall p;
       configuration :=
         {| configuration_name := configuration_name (configuration p);
            rootDir := dir;
            root := root (configuration p) |} |}
    w.

(** The getter of [path]. *)
Definition file_path (p : ProjectPackageJson) : string :=
  join io (dir p) "package.json".

(** The first three statements of [write]: both maps sorted, the flag
    cleared. *)
Definition write_prepare (p : ProjectPackageJson) : ProjectPackageJson :=
  let r1 := with_devDependencies (sortKeys (devDependencies (raw p))) (raw p) in
  let r2 := with_dependencies (sortKeys (dependencies r1)) r1 in
  with_rewrite false (with_raw r2 p).

(** The constant [json] of [write], for the manifest [r]. *)
Definition write_json (r : PackageJson) : Js.Dict Js.Value :=
  Js.set "devDependencies"
    (Js.Obj (strings (mapPackagesWithValidVersion (devDependencies r))))
    (Js.set "dependencies"
       (Js.Obj (strings (mapPackagesWithValidVersion (dependencies r))))
       (object_of r)).

(** The text handed to the file system. *)
Definition write_text (p : ProjectPackageJson) : string :=
  Js.stringify (write_json (raw (write_prepare p))).

Definition write (p : ProjectPackageJson) (w : World)
  : Js.Completion unit * ProjectPackageJson * World :=
  let p' := write_prepare p in
  let (result, w') := writeFileSync io (file_path p') (write_text p) w in
  (result, p', w').

Definition hasYarn (w : World) : bool * World :=
  match runSync io "yarn" ["--version"] w with
  | (Js.Normal _, w') => (true, w')
  | (Js.Throw _, w') => (false, w')
  end.

(** The selector of [errorPipe] in [installWithYarn]. *)
Definition yarnErrorPipe (message stderr : string) : Js.Completion unit :=
  if Js.startsWith stderr "error Your lockfile needs to be updated" then
    Js.Throw
      (Js.Error
         "yarn.lock file is outdated. Run yarn, commit the updated lockfile and try again.")
  else Js.Throw (Js.ExecaError message stderr).

Definition is_empty {A} (l : list A) : bool :=
  match l with [] => true | _ => false end.

Definition installWithYarn (options : InstallOptions) (p : ProjectPackageJson)
  : list Task :=
  let devDeps := mapPackagesWithInvalidVersion (devDependencies (raw p)) in
  let deps := mapPackagesWithInvalidVersion (dependencies (raw p)) in
  let cwd := dir p in
  let verbose := verbose options in
  [ {| title := "Installing dependencies using Yarn";
       enabled := None;
       skip := Some (fun this => negb (reinstall this));
       task :=
         CallRun "yarn"
           (Js.filter_Boolean
              [Js.Str "install"; Js.Str "--production=false";
               Js.and_ verbose (Js.Str "--verbose")])
           cwd (Some yarnErrorPipe) |};
    {| title := "Add dependencies using Yarn";
       enabled := None;
       skip := Some (fun _ => is_empty deps);
       task :=
         CallRun "yarn"
           (Js.filter_Boolean
              ([Js.Str "add"; Js.and_ verbose (Js.Str "--verbose")]
               ++ map Js.Str deps)%list)
           cwd (Some yarnErrorPipe) |};
    {| title := "Add devDependencies using Yarn";
       enabled := None;
       skip := Some (fun _ => is_empty devDeps);
       task :=
         CallRun "yarn"
           (Js.filter_Boolean
              ([Js.Str "add"; Js.Str "-D"; Js.and_ verbose (Js.Str "--verbose")]
               ++ map Js.Str devDeps)%list)
           cwd (Some yarnErrorPipe) |} ].

Definition installWithNpm (options : InstallOptions) (p : ProjectPackageJson)
  : list Task :=
  let devDeps := mapPackagesWithInvalidVersion (devDependencies (raw p)) in
  let deps := mapPackagesWithInvalidVersion (dependencies (raw p)) in
  let cwd := dir p in
  let verbose := verbose options in
  [ {| title := "Installing dependencies using npm";
       enabled := None;
       skip := Some (fun this => negb (reinstall this));
       task :=
         CallRun "npm"
           (Js.filter_Boolean
              [Js.Str "install"; Js.Str "--no-production";
               Js.and_ verbose (Js.Str "--verbose")])
           cwd None |};
    {| title := "Add dependencies using npm";
       enabled := None;
       skip := Some (fun _ => is_empty deps);
       task :=
         CallRun "npm"
           (Js.filter_Boolean
              ([Js.Str "install"; Js.Str "--save";
                Js.and_ verbose (Js.Str "--verbose")]
               ++ map Js.Str deps)%list)
           cwd None |};
    {| title := "Add devDependencies using npm";
       enabled := None;
       skip := Some (fun _ => is_empty devDeps);
       task :=
         CallRun "npm"
           (Js.filter_Boolean
              ([Js.Str "install"; Js.Str "--save-dev";
                Js.and_ verbose (Js.Str "--verbose")]
               ++ map Js.Str devDeps)%list)
           cwd None |} ].

Definition writeTask : Task :=
  {| title := "Write package.json";
     enabled := Some (fun this => rewrite this);
     skip := None;
     task := CallWrite |}.

Definition cleanTask : Task :=
  {| title := "Clean"; enabled := None; skip := None; task := CallClean |}.

(** [install]: the backend chosen, and the task list handed to
    [createTasks] (with [concurrent: false]). *)
Definition chooseBackend (options : InstallOptions) (w : World)
  : PackageManager * World :=
  let requested :=
    match packageManager options with
    | Some m => m
    | None => yarn
    end in
  match requested with
  | yarn =>
      let (found, w') := hasYarn w in
      ((if found then yarn else npm), w')
  | npm => (npm, w)
  end.

Definition install (options : InstallOptions) (p : ProjectPackageJson) (w : World)
  : list Task * World :=
  let (backend, w') := chooseBackend options w in
  let tasks :=
    match backend with
    | yarn => installWithYarn options p
    | npm => installWithNpm options p
    end in
  (([writeTask] ++ tasks ++ [cleanTask])%list, w').

(** What a task does when it runs. *)
Definition perform (a : Action) (p : ProjectPackageJson) (w : World)
  : Js.Completion unit * ProjectPackageJson * World :=
  match a with
  | CallWrite => write p w
  | CallRun cmd args cwd catchError =>
      match run io cmd args cwd w with
      | (Completed, w') => (Js.Normal tt, p, w')
      | (Failed message stderr, w') =>
          match catchError with
          | Some selector => (selector message stderr, p, w')
          | None => (Js.Throw (Js.ExecaError message stderr), p, w')
          end
      end
  | CallClean =>
      (Js.Normal tt, read (with_rewrite false (with_reinstall false p)) w, w)
  end.

Definition is_enabled (t : Task) (p : ProjectPackageJson) : bool :=
  match enabled t with Some f => f p | None => true end.

Definition is_skipped (t : Task) (p : ProjectPackageJson) : bool :=
  match skip t with Some f => f p | None => false end.

(** Modelled from the spec: [createTasks] (utils/createTasksRunner) and
    the runner it builds, which are not among the sources; section 4.3,
    sequential mode: tasks run in declared order, a task whose [enabled]
    predicate is false is left out, one whose [skip] predicate is true is
    skipped, both read when the task is reached; the first failure halts
    the run and is the failure of the whole. *)
Fixpoint runTasks (tasks : list Task) (p : ProjectPackageJson) (w : World)
  : Js.Completion unit * ProjectPackageJson * World :=
  match tasks with
  | [] => (Js.Normal tt, p, w)
  | t :: rest =>
      if negb (is_enabled t p) then runTasks rest p w
      else if is_skipped t p then runTasks rest p w
      else match perform (task t) p w with
           | (Js.Normal _, p', w') => runTasks rest p' w'
           | (Js.Throw e, p', w') => (Js.Throw e, p', w')
           end
  end.

(** [install(options)] run to its end. *)
Definition runInstall (options : InstallOptions) (p : ProjectPackageJson) (w : World)
  : Js.Completion unit * ProjectPackageJson * World :=
  let (tasks, w') := install options p w in
  runTasks tasks p w'.

Definition runScript (npmTask : string) (ignoreError : bool)
  (p : ProjectPackageJson) (w : World) : Js.Completion unit * World :=
  match run io "npm" [Js.Str "run"; Js.Str npmTask] (dir p) w with
  | (Completed, w') => (Js.Normal tt, w')
  | (Failed message stderr, w') =>
      if ignoreError then (Js.Normal tt, w')
      else (Js.Throw (Js.ExecaError message stderr), w')
  end.

End Service.

(** *** Well-formed property lists *)

(** The keys of an object are pairwise different. *)
Definition distinct_keys {A} (o : Js.Dict A) : Prop := NoDup (Js.keys o).

(** The order [sortKeys] leaves an object in: array indices first, by
    number, then the other keys by code units. *)
Definition key_lt (a b : string) : Prop :=
  match Js.array_index a, Js.array_index b with
  | Some i, Some j => (i < j)%N
  | Some _, None => True
  | None, Some _ => False
  | None, None => Js.str_lt a b = true
  end.

Definition sorted_keys {A} (o : Js.Dict A) : Prop :=
  StronglySorted key_lt (Js.keys o).

(** Keys in the order the engine enumerates them, whatever the creation
    order of the keys that are not array indices. *)
Definition key_before (a b : string) : Prop :=
  match Js.array_index a, Js.array_index b with
  | Some i, Some j => (i < j)%N
  | Some _, None => True
  | None, Some _ => False
  | None, None => True
  end.

Definition enumerated {A} (o : Js.Dict A) : Prop :=
  StronglySorted key_before (Js.keys o) /\ distinct_keys o.

Definition no_array_index {A} (o : Js.Dict A) : Prop :=
  Forall (fun k => Js.array_index k = None) (Js.keys o).

(** Sorted by code units, strictly. *)
Definition lexicographic {A} (o : Js.Dict A) : Prop :=
  StronglySorted (fun a b => Js.str_lt a b = true) (Js.keys o).

(** *** A small world for examples

    Test doubles for the collaborators: a disk that may be read-only, a
    yarn binary that may be missing, and subprocesses that end the way the
    world says. *)

Module Fixture.

Record World : Type := {
  files : Js.Dict string;
  read_only : bool;
  yarn_installed : bool;
  subprocess : RunResult
}.

Definition store (file text : string) (w : World) : World :=
  {| files := Js.set file text (files w);
     read_only := read_only w;
     yarn_installed := yarn_installed w;
     subprocess := subprocess w |}.

Definition io : Collaborators World :=
  {| join := fun a b => a ++ "/" ++ b;
     dirname := fun file => file;
     argv_includes_init := true;
     existsSync := fun file w => Js.has file (files w);
     readPkgUp_sync := fun _ _ => None;
     writeFileSync := fun file text w =>
       if read_only w
       then (Js.Throw (Js.Error "EROFS: read-only file system"), w)
       else (Js.Normal tt, store file text w);
     runSync := fun cmd _ w =>
       if String.eqb cmd "yarn" && negb (yarn_installed w)
       then (Js.Throw (Js.Error "spawnSync yarn ENOENT"), w)
       else (Js.Normal tt, w);
     run := fun _ _ _ w => (subprocess w, w) |}.

Definition fresh : World :=
  {| files := []; read_only := false; yarn_installed := true;
     subprocess := Completed |}.

Definition locked : World :=
  {| files := []; read_only := true; yarn_installed := true;
     subprocess := Completed |}.

Definition without_yarn : World :=
  {| files := []; read_only := false; yarn_installed := false;
     subprocess := Completed |}.

Definition failing (message stderr : string) : World :=
  {| files := []; read_only := false; yarn_installed := true;
     subprocess := Failed message stderr |}.

Definition project (deps devDeps : Js.Dict string) : ProjectPackageJson :=
  {| raw :=
       {| name := "demo"; version := "1.0.0"; description := EmptyString;
          scripts := []; dependencies := deps; devDependencies := devDeps;
          extra := [] |};
     rewrite := false;
     reinstall := false;
     configuration :=
       {| configuration_name := "demo"; rootDir := "/work"; root := None |} |}.

End Fixture.

(** *** The specification's reading of a version specifier

    The specification calls a specifier valid when it is a semantic version
    or a range.  The range grammar is large; [simple_range] is the fragment
    made of one comparator, an operator followed by a version, which is a
    range for every implementation of the grammar. *)

Module Spec.

Definition operators : list string := ["^"; "~"; ">="; "<="; ">"; "<"; "="].

Definition simple_range (s : string) : bool :=
  existsb
    (fun op =>
       String.prefix op s
       && Semver.valid
            (String.substring (String.length op)
               (String.length s - String.length op) s))
    operators.

Definition version_or_range (s : string) : bool :=
  Semver.valid s || simple_range s.

End Spec.

(** *** Further notions for the properties of the code *)


(** The keys of the declared fields. *)
Definition declared_keys : list string :=
  ["name"; "version"; "description"; "scripts"; "dependencies"; "devDependencies"].

(** The declared fields of a manifest as properties, in their order. *)
Definition declared (r : PackageJson) : Js.Dict Js.Value :=
  [ ("name", Js.Str (name r));
    ("version", Js.Str (version r));
    ("description", Js.Str (description r));
    ("scripts", Js.Obj (strings (scripts r)));
    ("dependencies", Js.Obj (strings (dependencies r)));
    ("devDependencies", Js.Obj (strings (devDependencies r))) ].

(** The open-ended part of a manifest is an object of its own: its keys
    are pairwise different and none of them is a declared field. *)
Definition tidy (r : PackageJson) : Prop :=
  distinct_keys (extra r)
  /\ forall k, In k declared_keys -> ~ In k (Js.keys (extra r)).

(** A string without the character [c]. *)
Definition free_of (c : ascii) (s : string) : Prop :=
  Js.all_chars (fun x => negb (Ascii.eqb x c)) s = true.

(** [l.filter(Boolean)] on strings: the empty string is the falsy one. *)
Definition nonempty_strings (l : list string) : list string :=
  filter Semver.nonempty l.

(** The [--verbose] argument, present when [verbose] is truthy. *)
Definition verbose_flag (options : InstallOptions) : list Js.Value :=
  if Js.truthy (verbose options) then [Js.Str "--verbose"] else [].



(** Collaborators that never fail: every write is accepted, the probe
    finds yarn, every subprocess completes, no manifest is on disk. *)
Module Reliable.

Definition io : Collaborators unit :=
  {| join := fun a b => a ++ "/" ++ b;
     dirname := fun file => file;
     argv_includes_init := false;
     existsSync := fun _ _ => false;
     readPkgUp_sync := fun _ _ => None;
     writeFileSync := fun _ _ w => (Js.Normal tt, w);
     runSync := fun _ _ w => (Js.Normal tt, w);
     run := fun _ _ _ w => (Completed, w) |}.

End Reliable.

(** ** The generate command: the search of the autocomplete prompts *)

Module GenerateCmd.

(** A choice of a prompt: what is shown and what is returned. *)
Record Choice : Type := {
  name : string;
  value : string
}.

Definition DECORATOR_TYPES : list Choice :=
  [ {| name := "Class decorator"; value := "class" |};
    {| name := "Ts.ED middleware and its decorator"; value := "middleware" |};
    {| name := "Ts.ED endpoint decorator"; value := "endpoint" |};
    {| name := "Ts.ED property decorator"; value := "prop" |};
    {| name := "Ts.ED parameter decorator"; value := "param" |};
    {| name := "Vanilla Method decorator"; value := "method" |};
    {| name := "Vanilla Property decorator"; value := "property" |};
    {| name := "Vanilla Parameter decorator"; value := "parameter" |};
    {| name := "Generic decorator"; value := "generic" |} ].

(** [toLowerCase] on one code unit below 256: the letters A to Z, and the
    accented capitals from 192 to 222 but for the multiplication sign. *)
Definition lower (c : ascii) : ascii :=
  if Js.is_upper c
     || (Js.between 192 222 c && negb (Js.code c =? 215)%nat)
  then ascii_of_nat (Js.code c + 32)
  else c.

Fixpoint toLowerCase (s : string) : string :=
  match s with
  | EmptyString => EmptyString
  | String c r => String (lower c) (toLowerCase r)
  end.

(** [s.includes(k)] *)
Definition includes (s k : string) : bool :=
  match Js.indexOf k s with
  | Some _ => true
  | None => false
  end.

(** [searchFactory(list)(state, keyword)]; the keyword is [undefined]
    before anything is typed. *)
Definition searchFactory (choices : list Choice) (keyword : option string)
  : list Choice :=
  match keyword with
  | Some k =>
      if Semver.nonempty k
      then filter (fun item => includes (toLowerCase (name item)) (toLowerCase k))
                  choices
      else choices
  | None => choices
  end.

End GenerateCmd.

(** * Lemmas *)

(** ** The models on concrete inputs *)

Example semver_accepts_versions :
  map Semver.valid
      ["1.0.0"; "v1.2.3"; "6.10.3"; "1.0.0-beta.1+build.5"; "1.2.3-a-b.c"]
  = [true; true; true; true; true].
Proof. reflexivity. Qed.

Example semver_rejects_the_rest :
  map Semver.valid
      ["^1.0.0"; "~1.2.3"; ">=1.0.0"; "1.x"; "1.0"; "01.0.0"; "1.0.0-01";
       "latest"; "next"; "{{x}}"; EmptyString; "9007199254740992.0.0"]
  = [false; false; false; false; false; false; false;
     false; false; false; false; false].
Proof. reflexivity. Qed.

Example enumeration_order :
  Js.literal [("b", 1); ("10", 2); ("a", 3); ("9", 4); ("b", 5)]
  = [("9", 4); ("10", 2); ("b", 5); ("a", 3)].
Proof. reflexivity. Qed.

Example sortKeys_example :
  sortKeys [("zed", 1); ("@tsed/core", 2); ("Abc", 3); ("abc", 4); ("ab", 5)]
  = [("@tsed/core", 2); ("Abc", 3); ("ab", 5); ("abc", 4); ("zed", 1)].
Proof. reflexivity. Qed.

Example stringify_example :
  Js.stringify
    [("name", Js.Str "demo"); ("private", Js.Bool true); ("gone", Js.Undefined);
     ("dependencies", Js.Obj [("a", Js.Str "1.0.0")]); ("files", Js.Arr [])]
  = "{" ++ Js.nl
    ++ "  " ++ Js.dquote ++ "name" ++ Js.dquote ++ ": "
    ++ Js.dquote ++ "demo" ++ Js.dquote ++ "," ++ Js.nl
    ++ "  " ++ Js.dquote ++ "private" ++ Js.dquote ++ ": true," ++ Js.nl
    ++ "  " ++ Js.dquote ++ "dependencies" ++ Js.dquote ++ ": {" ++ Js.nl
    ++ "    " ++ Js.dquote ++ "a" ++ Js.dquote ++ ": "
    ++ Js.dquote ++ "1.0.0" ++ Js.dquote ++ Js.nl
    ++ "  }," ++ Js.nl
    ++ "  " ++ Js.dquote ++ "files" ++ Js.dquote ++ ": []" ++ Js.nl
    ++ "}".
Proof. reflexivity. Qed.

Example replace_string_example :
  Js.replace_string "{{tsedVersion}}" "6.10.3" "^{{tsedVersion}} {{tsedVersion}}"
  = "^6.10.3 {{tsedVersion}}".
Proof. reflexivity. Qed.

Example devVersion_example :
  map (fun v => devVersion [("x", Js.Str "2.0.0"); ("a", Js.Obj [("b", Js.Num 5)])]
                           (Some v))
      ["{{x}}"; "^{{x}}-{{a.b}}"; "{{{x}}}"; "{{x}"; "{{}}"; "{{x y}}"]
  = ["2.0.0"; "^2.0.0-5"; "{2.0.0}"; "{{x}"; "{{}}"; "{{x y}}"].
Proof. reflexivity. Qed.

(** ** The order on strings *)

Section StringOrder.

Lemma ascii_compare_refl (a : ascii) : Ascii.compare a a = Eq.
Proof. unfold Ascii.compare. apply N.compare_refl. Qed.

Lemma ascii_compare_lt_trans (a b c : ascii) :
  Ascii.compare a b = Lt -> Ascii.compare b c = Lt -> Ascii.compare a c = Lt.
Proof.
  unfold Ascii.compare. rewrite !N.compare_lt_iff. apply N.lt_trans.
Qed.

Lemma string_compare_refl (s : string) : String.compare s s = Eq.
Proof.
  induction s as [|c r IH]; simpl; [reflexivity|].
  now rewrite ascii_compare_refl.
Qed.

Lemma string_compare_lt_trans (a b c : string) :
  String.compare a b = Lt -> String.compare b c = Lt -> String.compare a c = Lt.
Proof.
  revert b c. induction a as [|x a IH]; intros [|y b] [|z c]; simpl;
    try discriminate; auto.
  destruct (Ascii.compare x y) eqn:Exy; try discriminate.
  - apply Ascii.compare_eq_iff in Exy. subst y.
    destruct (Ascii.compare x z); auto. apply IH.
  - intros _. destruct (Ascii.compare y z) eqn:Eyz; try discriminate.
    + apply Ascii.compare_eq_iff in Eyz. subst z. now rewrite Exy.
    + intros _. now rewrite (ascii_compare_lt_trans x y z Exy Eyz).
Qed.

Lemma str_lt_irrefl (a : string) : Js.str_lt a a = false.
Proof. unfold Js.str_lt, String.ltb. now rewrite string_compare_refl. Qed.

Lemma str_lt_trans (a b c : string) :
  Js.str_lt a b = true -> Js.str_lt b c = true -> Js.str_lt a c = true.
Proof.
  unfold Js.str_lt, String.ltb.
  destruct (String.compare a b) eqn:Eab; try discriminate.
  destruct (String.compare b c) eqn:Ebc; try discriminate.
  now rewrite (string_compare_lt_trans a b c Eab Ebc).
Qed.

Lemma str_lt_total (a b : string) :
  Js.str_lt a b = false -> a <> b -> Js.str_lt b a = true.
Proof.
  unfold Js.str_lt, String.ltb. intros H N.
  rewrite String.compare_antisym.
  destruct (String.compare a b) eqn:E; simpl; try reflexivity.
  - apply String.compare_eq_iff in E. contradiction.
  - discriminate.
Qed.

Lemma str_lt_asym (a b : string) :
  Js.str_lt a b = true -> Js.str_lt b a = true -> False.
Proof.
  intros H1 H2. pose proof (str_lt_trans a b a H1 H2) as H.
  rewrite str_lt_irrefl in H. discriminate.
Qed.

Lemma array_index_inj (a b : string) (n : N) :
  Js.array_index a = Some n -> Js.array_index b = Some n -> a = b.
Proof.
  unfold Js.array_index. intros Ha Hb.
  destruct (Js.N_of_decimal a) as [i|]; [|discriminate].
  destruct (Js.N_of_decimal b) as [j|]; [|discriminate].
  destruct (String.eqb (Js.decimal_of_N i) a) eqn:Ea; simpl in Ha;
    [|discriminate].
  destruct (String.eqb (Js.decimal_of_N j) b) eqn:Eb; simpl in Hb;
    [|discriminate].
  destruct (i <=? 4294967294)%N; [|discriminate].
  destruct (j <=? 4294967294)%N; [|discriminate].
  apply String.eqb_eq in Ea, Eb. congruence.
Qed.

Lemma key_lt_irrefl (a : string) : ~ key_lt a a.
Proof.
  unfold key_lt. destruct (Js.array_index a).
  - apply N.lt_irrefl.
  - rewrite str_lt_irrefl. discriminate.
Qed.

Lemma key_lt_trans (a b c : string) : key_lt a b -> key_lt b c -> key_lt a c.
Proof.
  unfold key_lt.
  destruct (Js.array_index a), (Js.array_index b), (Js.array_index c);
    try tauto.
  - apply N.lt_trans.
  - apply str_lt_trans.
Qed.

Lemma key_lt_asym (a b : string) : key_lt a b -> key_lt b a -> False.
Proof.
  intros H1 H2. exact (key_lt_irrefl a (key_lt_trans a b a H1 H2)).
Qed.

Lemma key_lt_before (a b : string) : key_lt a b -> key_before a b.
Proof.
  unfold key_lt, key_before.
  destruct (Js.array_index a), (Js.array_index b); tauto.
Qed.

End StringOrder.

(** ** Property lists *)

Section Dict.

Context {A : Type}.
Implicit Types (o : Js.Dict A) (k : string) (v : A).

Lemma get_None_keys k o : Js.get k o = None <-> ~ In k (Js.keys o).
Proof.
  induction o as [|[k' v'] r IH]; simpl; [tauto|].
  destruct (String.eqb_spec k' k) as [->|N].
  - split; [discriminate | intros H; exfalso; apply H; now left].
  - rewrite IH. tauto.
Qed.

Lemma has_true k o : Js.has k o = true <-> In k (Js.keys o).
Proof.
  unfold Js.has. pose proof (get_None_keys k o) as H.
  destruct (Js.get k o).
  - split; [intros _|reflexivity].
    destruct (in_dec string_dec k (Js.keys o)) as [I|I]; [exact I|].
    apply H in I. discriminate.
  - split; [discriminate|]. intros I. exfalso. now apply H.
Qed.

Lemma has_false k o : Js.has k o = false <-> ~ In k (Js.keys o).
Proof.
  rewrite <- has_true. destruct (Js.has k o); split; congruence.
Qed.

Lemma In_keys k v o : In (k, v) o -> In k (Js.keys o).
Proof. intros H. apply (in_map fst) in H. exact H. Qed.

Lemma get_In k v o : Js.get k o = Some v -> In (k, v) o.
Proof.
  induction o as [|[k' v'] r IH]; simpl; [discriminate|].
  destruct (String.eqb_spec k' k) as [->|N].
  - intros [= ->]. now left.
  - intros H. right. now apply IH.
Qed.

Lemma In_get k v o : distinct_keys o -> In (k, v) o -> Js.get k o = Some v.
Proof.
  unfold distinct_keys.
  induction o as [|[k' v'] r IH]; simpl; [tauto|].
  intros D [E|I].
  - injection E as -> ->. now rewrite String.eqb_refl.
  - inversion D as [|? ? N D']; subst.
    destruct (String.eqb_spec k' k) as [->|_].
    + exfalso. apply N. exact (In_keys _ _ _ I).
    + now apply IH.
Qed.

Lemma keys_update k v o : Js.keys (Js.update k v o) = Js.keys o.
Proof.
  induction o as [|[k' v'] r IH]; simpl; [reflexivity|].
  destruct (String.eqb k' k); simpl; [reflexivity|]. now rewrite IH.
Qed.

Lemma get_update_same k v o :
  In k (Js.keys o) -> Js.get k (Js.update k v o) = Some v.
Proof.
  induction o as [|[k' v'] r IH]; simpl; [tauto|].
  destruct (String.eqb_spec k' k) as [->|N]; simpl.
  - intros _. now rewrite String.eqb_refl.
  - intros [E|I]; [contradiction|].
    destruct (String.eqb_spec k' k); [contradiction|]. now apply IH.
Qed.

Lemma get_update_other k k' v o :
  k' <> k -> Js.get k' (Js.update k v o) = Js.get k' o.
Proof.
  intros N. induction o as [|[k0 v0] r IH]; simpl; [reflexivity|].
  destruct (String.eqb_spec k0 k) as [->|N0]; simpl.
  - destruct (String.eqb_spec k k'); [congruence|reflexivity].
  - destruct (String.eqb k0 k'); [reflexivity|exact IH].
Qed.

Lemma insert_index_perm n k v o :
  Permutation ((k, v) :: o) (Js.insert_index n k v o).
Proof.
  induction o as [|[k' v'] r IH]; simpl; [reflexivity|].
  destruct (Js.array_index k') as [n'|]; [|reflexivity].
  destruct (n' <? n)%N; [|reflexivity].
  rewrite perm_swap. now apply perm_skip.
Qed.

Lemma set_fresh_perm k v o :
  ~ In k (Js.keys o) -> Permutation ((k, v) :: o) (Js.set k v o).
Proof.
  intros N. unfold Js.set. apply has_false in N. rewrite N.
  destruct (Js.array_index k).
  - apply insert_index_perm.
  - apply Permutation_cons_append.
Qed.

Lemma set_fresh_keys k v o :
  ~ In k (Js.keys o) -> Permutation (k :: Js.keys o) (Js.keys (Js.set k v o)).
Proof.
  intros N. exact (Permutation_map fst (set_fresh_perm k v o N)).
Qed.

Lemma keys_set_In k' k v o :
  In k' (Js.keys (Js.set k v o)) <-> k' = k \/ In k' (Js.keys o).
Proof.
  destruct (in_dec string_dec k (Js.keys o)) as [I|N].
  - unfold Js.set. apply has_true in I. rewrite I, keys_update.
    apply has_true in I. split; [tauto|]. intros [->|H]; assumption.
  - pose proof (set_fresh_keys k v o N) as P. split.
    + intros H. apply (Permutation_in _ (Permutation_sym P)) in H.
      destruct H as [->|H]; tauto.
    + intros H. apply (Permutation_in _ P). destruct H as [->|H];
        [now left | now right].
Qed.

Lemma distinct_set k v o : distinct_keys o -> distinct_keys (Js.set k v o).
Proof.
  unfold distinct_keys. intros D.
  destruct (in_dec string_dec k (Js.keys o)) as [I|N].
  - unfold Js.set. apply has_true in I. now rewrite I, keys_update.
  - apply (Permutation_NoDup (set_fresh_keys k v o N)).
    now constructor.
Qed.

Lemma get_app_fresh k k' v o :
  Js.get k' (o ++ [(k, v)])%list
  = match Js.get k' o with
    | Some x => Some x
    | None => if String.eqb k k' then Some v else None
    end.
Proof.
  induction o as [|[k0 v0] r IH]; simpl; [reflexivity|].
  destruct (String.eqb k0 k'); [reflexivity|exact IH].
Qed.

Lemma get_insert_index n k k' v o :
  ~ In k (Js.keys o) ->
  Js.get k' (Js.insert_index n k v o)
  = if String.eqb k k' then Some v else Js.get k' o.
Proof.
  induction o as [|[k0 v0] r IH]; simpl; intros N; [reflexivity|].
  assert (N0 : k0 <> k) by tauto.
  assert (Nr : ~ In k (Js.keys r)) by tauto.
  destruct (Js.array_index k0) as [n0|]; simpl; [|reflexivity].
  destruct (n0 <? n)%N; simpl; [|reflexivity].
  rewrite (IH Nr).
  destruct (String.eqb_spec k0 k') as [->|_]; [|reflexivity].
  destruct (String.eqb_spec k k'); [congruence|reflexivity].
Qed.

Lemma get_set_same k v o : Js.get k (Js.set k v o) = Some v.
Proof.
  unfold Js.set. destruct (Js.has k o) eqn:H.
  - apply get_update_same. now apply has_true.
  - pose proof H as G. apply has_false in H. apply get_None_keys in H.
    destruct (Js.array_index k).
    + rewrite get_insert_index by (now apply get_None_keys).
      now rewrite String.eqb_refl.
    + now rewrite get_app_fresh, H, String.eqb_refl.
Qed.

Lemma get_set_other k k' v o : k' <> k -> Js.get k' (Js.set k v o) = Js.get k' o.
Proof.
  intros N. unfold Js.set. destruct (Js.has k o) eqn:H.
  - now apply get_update_other.
  - apply has_false in H. destruct (Js.array_index k).
    + rewrite get_insert_index by assumption.
      destruct (String.eqb_spec k k'); [congruence|reflexivity].
    + rewrite get_app_fresh.
      destruct (String.eqb_spec k k'); [congruence|].
      now destruct (Js.get k' o).
Qed.

(** Building an object from distinct properties keeps every property. *)
Lemma spread_perm (l acc : Js.Dict A) :
  distinct_keys (acc ++ l)%list -> Permutation (acc ++ l)%list (Js.spread acc l).
Proof.
  unfold Js.spread, distinct_keys, Js.keys.
  revert acc. induction l as [|[k v] l IH]; intros acc D; simpl.
  - now rewrite app_nil_r.
  - rewrite map_app in D. simpl in D.
    pose proof (NoDup_remove_2 _ _ _ D) as N.
    assert (Nacc : ~ In k (Js.keys acc)).
    { intros I. apply N. apply in_or_app. now left. }
    pose proof (set_fresh_perm k v acc Nacc) as P.
    rewrite <- IH.
    + rewrite <- P. simpl. symmetry. apply Permutation_middle.
    + rewrite map_app.
      apply (Permutation_NoDup (l := map fst acc ++ k :: map fst l)); [|exact D].
      rewrite <- (Permutation_map fst P). simpl.
      symmetry. apply Permutation_middle.
Qed.

Lemma literal_perm (l : Js.Dict A) :
  distinct_keys l -> Permutation l (Js.literal l).
Proof. intros D. exact (spread_perm l [] D). Qed.

End Dict.

(** ** Sorting and the enumeration order *)

Section Sorting.

Context {A : Type}.
Implicit Types (o l acc : Js.Dict A) (k : string) (v : A).

Lemma sort_insert_perm (cmp : string * A -> string * A -> Z) x l :
  Permutation (x :: l) (Js.sort_insert cmp x l).
Proof.
  induction l as [|y r IH]; simpl; [reflexivity|].
  destruct (cmp x y <=? 0)%Z; [reflexivity|].
  rewrite perm_swap. now apply perm_skip.
Qed.

Lemma sort_perm (cmp : string * A -> string * A -> Z) l :
  Permutation l (Js.sort cmp l).
Proof.
  induction l as [|x r IH]; simpl; [reflexivity|].
  rewrite <- sort_insert_perm. now apply perm_skip.
Qed.

Lemma compareKeys_le (a b : string * A) :
  (compareKeys a b <=? 0)%Z = Js.str_lt (fst a) (fst b).
Proof. unfold compareKeys. now destruct (Js.str_lt (fst a) (fst b)). Qed.

Lemma sort_insert_lexicographic (x : string * A) l :
  lexicographic l -> ~ In (fst x) (Js.keys l) ->
  lexicographic (Js.sort_insert compareKeys x l).
Proof.
  unfold lexicographic.
  induction l as [|y r IH]; simpl; intros S N.
  - repeat constructor.
  - inversion S as [|? ? Sr Fr]; subst.
    rewrite compareKeys_le.
    destruct (Js.str_lt (fst x) (fst y)) eqn:E; simpl.
    + constructor; [exact S|]. constructor; [exact E|].
      eapply Forall_impl; [|exact Fr]. simpl. intros z Hz.
      exact (str_lt_trans _ _ _ E Hz).
    + constructor.
      * apply IH; tauto.
      * apply Forall_forall. intros z Hz.
        apply (Permutation_in _
                 (Permutation_sym
                    (Permutation_map fst (sort_insert_perm compareKeys x r)))) in Hz.
        simpl in Hz. destruct Hz as [<-|Hz].
        -- apply str_lt_total; [exact E|]. intros Q. apply N. now left.
        -- rewrite Forall_forall in Fr. now apply Fr.
Qed.

Lemma sort_lexicographic l :
  distinct_keys l -> lexicographic (Js.sort compareKeys l).
Proof.
  unfold distinct_keys.
  induction l as [|x r IH]; simpl; intros D.
  - constructor.
  - inversion D as [|? ? N Dr]; subst.
    apply sort_insert_lexicographic; [now apply IH|].
    intros I. apply N.
    exact (Permutation_in _
             (Permutation_sym (Permutation_map fst (sort_perm compareKeys r))) I).
Qed.

Lemma StronglySorted_snoc {B} (R : B -> B -> Prop) (l : list B) (x : B) :
  StronglySorted R l -> Forall (fun a => R a x) l ->
  StronglySorted R (l ++ [x])%list.
Proof.
  induction l as [|a r IH]; simpl; intros S F.
  - repeat constructor.
  - inversion S; inversion F; subst. constructor; [now apply IH|].
    apply Forall_app. split; [assumption|]. now repeat constructor.
Qed.

Lemma sorted_keys_distinct o : sorted_keys o -> distinct_keys o.
Proof.
  unfold sorted_keys, distinct_keys.
  induction (Js.keys o) as [|a r IH]; intros S; [constructor|].
  inversion S as [|? ? Sr Fr]; subst. constructor; [|now apply IH].
  intros I. rewrite Forall_forall in Fr.
  exact (key_lt_irrefl a (Fr a I)).
Qed.

Lemma sorted_keys_enumerated o : sorted_keys o -> enumerated o.
Proof.
  intros S. split; [|now apply sorted_keys_distinct].
  unfold sorted_keys in S.
  induction S as [|a r Sr IH Fr]; constructor; [exact IH|].
  eapply Forall_impl; [|exact Fr]. apply key_lt_before.
Qed.

Lemma insert_index_sorted n k v o :
  sorted_keys o -> ~ In k (Js.keys o) -> Js.array_index k = Some n ->
  sorted_keys (Js.insert_index n k v o).
Proof.
  unfold sorted_keys. intros S N E.
  induction o as [|[k' v'] r IH]; simpl in *.
  - repeat constructor.
  - inversion S as [|? ? Sr Fr]; subst.
    assert (Hfront : key_lt k k' ->
                     StronglySorted key_lt (k :: k' :: map fst r)).
    { intros L. constructor; [exact S|]. constructor; [exact L|].
      eapply Forall_impl; [|exact Fr]. intros z. now apply key_lt_trans. }
    destruct (Js.array_index k') as [n'|] eqn:E'.
    + destruct (n' <? n)%N eqn:C; simpl.
      * constructor; [apply IH; tauto|].
        apply Forall_forall. intros z Hz.
        apply (Permutation_in _
                 (Permutation_sym
                    (Permutation_map fst (insert_index_perm n k v r)))) in Hz.
        simpl in Hz. destruct Hz as [<-|Hz].
        -- unfold key_lt. rewrite E', E. now apply N.ltb_lt.
        -- rewrite Forall_forall in Fr. now apply Fr.
      * apply Hfront. unfold key_lt. rewrite E, E'.
        apply N.ltb_ge in C.
        assert (n <> n').
        { intros ->. apply N. left. exact (array_index_inj _ _ _ E' E). }
        lia.
    + apply Hfront. unfold key_lt. now rewrite E, E'.
Qed.

Lemma set_fresh_sorted k v o :
  sorted_keys o -> ~ In k (Js.keys o) ->
  (forall a, In a (Js.keys o) -> Js.array_index a = None ->
             Js.str_lt a k = true) ->
  sorted_keys (Js.set k v o).
Proof.
  intros S N L. unfold Js.set.
  pose proof N as H. apply has_false in H. rewrite H.
  destruct (Js.array_index k) as [n|] eqn:E.
  - now apply insert_index_sorted.
  - unfold sorted_keys, Js.keys. rewrite map_app. simpl.
    apply StronglySorted_snoc; [exact S|].
    apply Forall_forall. intros a Ha. unfold key_lt. rewrite E.
    destruct (Js.array_index a) eqn:Ea; [exact I|]. now apply L.
Qed.

(** Properties added in code unit order end up in sorted order. *)
Lemma spread_sorted l acc :
  sorted_keys acc -> lexicographic l -> distinct_keys (acc ++ l)%list ->
  (forall a b, In a (Js.keys acc) -> Js.array_index a = None ->
               In b (Js.keys l) -> Js.str_lt a b = true) ->
  sorted_keys (Js.spread acc l).
Proof.
  unfold Js.spread. revert acc.
  induction l as [|[k v] l IH]; intros acc S X D B; simpl; [exact S|].
  unfold lexicographic in X. simpl in X.
  inversion X as [|? ? Xl Fl]; subst.
  unfold distinct_keys, Js.keys in D. rewrite map_app in D. simpl in D.
  assert (N : ~ In k (Js.keys acc)).
  { intros I. apply (NoDup_remove_2 _ _ _ D). apply in_or_app. now left. }
  apply IH.
  - apply set_fresh_sorted; [exact S|exact N|].
    intros a Ha Ea. apply (B a k Ha Ea). now left.
  - exact Xl.
  - unfold distinct_keys, Js.keys. rewrite map_app.
    apply (Permutation_NoDup (l := map fst acc ++ k :: map fst l)); [|exact D].
    rewrite <- (set_fresh_keys k v acc N). simpl.
    symmetry. apply Permutation_middle.
  - intros a b Ha Ea Hb. apply keys_set_In in Ha. destruct Ha as [->|Ha].
    + rewrite Forall_forall in Fl. now apply Fl.
    + apply (B a b Ha Ea). now right.
Qed.

Lemma sortKeys_perm o : distinct_keys o -> Permutation o (sortKeys o).
Proof.
  intros D. unfold sortKeys, Js.entries.
  rewrite (sort_perm compareKeys o) at 1.
  apply literal_perm. unfold distinct_keys.
  apply (Permutation_NoDup (Permutation_map fst (sort_perm compareKeys o))).
  exact D.
Qed.

Lemma sortKeys_sorted o : distinct_keys o -> sorted_keys (sortKeys o).
Proof.
  intros D. unfold sortKeys, Js.entries.
  apply (spread_sorted (Js.sort compareKeys o) []).
  - constructor.
  - now apply sort_lexicographic.
  - simpl. unfold distinct_keys.
    apply (Permutation_NoDup (Permutation_map fst (sort_perm compareKeys o))).
    exact D.
  - intros a b [].
Qed.

(** Two sorted objects with the same properties are the same object. *)
Lemma sorted_perm_eq l1 l2 :
  sorted_keys l1 -> sorted_keys l2 -> Permutation l1 l2 -> l1 = l2.
Proof.
  unfold sorted_keys. revert l2.
  induction l1 as [|x r1 IH]; intros l2 S1 S2 P.
  - apply Permutation_nil in P. now subst.
  - destruct l2 as [|y r2].
    + symmetry in P. apply Permutation_nil in P. discriminate.
    + simpl in S1, S2.
      inversion S1 as [|? ? S1r F1]; inversion S2 as [|? ? S2r F2]; subst.
      rewrite Forall_forall in F1, F2.
      assert (E : x = y).
      { assert (Hx : In x (y :: r2)) by (apply (Permutation_in _ P); now left).
        assert (Hy : In y (x :: r1))
          by (apply (Permutation_in _ (Permutation_sym P)); now left).
        destruct Hx as [->|Hx]; [reflexivity|].
        destruct Hy as [->|Hy]; [reflexivity|].
        exfalso. apply (key_lt_asym (fst x) (fst y)).
        - apply F1. now apply in_map.
        - apply F2. now apply in_map. }
      subst y. f_equal. apply IH; try assumption.
      exact (Permutation_cons_inv P).
Qed.

Lemma sortKeys_idempotent o :
  distinct_keys o -> sortKeys (sortKeys o) = sortKeys o.
Proof.
  intros D.
  assert (D' : distinct_keys (sortKeys o)).
  { unfold distinct_keys.
    apply (Permutation_NoDup (Permutation_map fst (sortKeys_perm o D))).
    exact D. }
  apply sorted_perm_eq.
  - now apply sortKeys_sorted.
  - now apply sortKeys_sorted.
  - symmetry. now apply sortKeys_perm.
Qed.

Lemma sorted_no_index_lexicographic o :
  sorted_keys o -> no_array_index o -> lexicographic o.
Proof.
  unfold sorted_keys, no_array_index, lexicographic.
  induction (Js.keys o) as [|a r IH]; intros S F; [constructor|].
  inversion S as [|? ? Sr Fr]; inversion F as [|? ? Ea Fa]; subst.
  constructor; [now apply IH|].
  rewrite Forall_forall in *. intros b Hb.
  specialize (Fr b Hb). unfold key_lt in Fr.
  now rewrite Ea, (Fa b Hb) in Fr.
Qed.

End Sorting.

(** ** Objects in enumeration order, and the two partitions *)

Section Partition.

Context {A : Type}.
Implicit Types (o l acc : Js.Dict A) (k : string) (v : A).

Lemma StronglySorted_snoc_inv {B} (R : B -> B -> Prop) (l : list B) (x : B) :
  StronglySorted R (l ++ [x])%list -> Forall (fun a => R a x) l.
Proof.
  induction l as [|a r IH]; simpl; intros S; [constructor|].
  inversion S as [|? ? Sr Fr]; subst. constructor; [|now apply IH].
  rewrite Forall_forall in Fr. apply Fr. apply in_or_app. right. now left.
Qed.

Lemma StronglySorted_prefix {B} (R : B -> B -> Prop) (l1 l2 : list B) :
  StronglySorted R (l1 ++ l2)%list -> StronglySorted R l1.
Proof.
  induction l1 as [|a r IH]; simpl; intros S; [constructor|].
  inversion S as [|? ? Sr Fr]; subst. constructor; [now apply IH|].
  apply Forall_app in Fr. tauto.
Qed.

Lemma enumerated_prefix l1 l2 : enumerated (l1 ++ l2)%list -> enumerated l1.
Proof.
  unfold enumerated, distinct_keys, Js.keys. rewrite map_app.
  intros [S D]. split.
  - exact (StronglySorted_prefix _ _ _ S).
  - exact (NoDup_app_remove_r _ _ D).
Qed.

Lemma insert_index_end n k v o :
  (forall a, In a (Js.keys o) ->
             exists i, Js.array_index a = Some i /\ (i < n)%N) ->
  Js.insert_index n k v o = (o ++ [(k, v)])%list.
Proof.
  induction o as [|[k' v'] r IH]; simpl; intros H; [reflexivity|].
  destruct (H k' (or_introl eq_refl)) as [i [E L]].
  rewrite E. apply N.ltb_lt in L. rewrite L.
  f_equal. apply IH. intros a Ha. apply H. now right.
Qed.

Lemma set_enumerated_end k v o :
  enumerated (o ++ [(k, v)])%list -> Js.set k v o = (o ++ [(k, v)])%list.
Proof.
  unfold enumerated, distinct_keys, Js.keys. rewrite map_app. simpl.
  intros [S D].
  assert (N : ~ In k (Js.keys o)).
  { intros I. apply (NoDup_remove_2 _ _ _ D). rewrite app_nil_r. exact I. }
  unfold Js.set. apply has_false in N. rewrite N.
  destruct (Js.array_index k) as [n|] eqn:E; [|reflexivity].
  apply insert_index_end. intros a Ha.
  pose proof (StronglySorted_snoc_inv _ _ _ S) as F.
  rewrite Forall_forall in F. specialize (F a Ha).
  unfold key_before in F. rewrite E in F.
  destruct (Js.array_index a) as [i|]; [|contradiction].
  now exists i.
Qed.

(** Re-creating the properties of an object in its own enumeration order
    gives the object back. *)
Lemma spread_enumerated l acc :
  enumerated (acc ++ l)%list -> Js.spread acc l = (acc ++ l)%list.
Proof.
  unfold Js.spread. revert acc.
  induction l as [|[k v] l IH]; intros acc E; simpl.
  - now rewrite app_nil_r.
  - replace (acc ++ (k, v) :: l)%list with ((acc ++ [(k, v)]) ++ l)%list in *
      by (now rewrite <- app_assoc).
    rewrite (set_enumerated_end k v acc (enumerated_prefix _ _ E)).
    now apply IH.
Qed.

Lemma literal_enumerated l : enumerated l -> Js.literal l = l.
Proof. intros E. exact (spread_enumerated l [] E). Qed.

Lemma keys_filter_In (f : string * A -> bool) k o :
  In k (Js.keys (filter f o)) -> In k (Js.keys o).
Proof.
  unfold Js.keys. rewrite !in_map_iff.
  intros [x [E I]]. apply filter_In in I. exists x. tauto.
Qed.

Lemma distinct_filter (f : string * A -> bool) o :
  distinct_keys o -> distinct_keys (filter f o).
Proof.
  unfold distinct_keys.
  induction o as [|x r IH]; simpl; intros D; [constructor|].
  inversion D as [|? ? N Dr]; subst.
  destruct (f x); simpl; [|now apply IH].
  constructor; [|now apply IH].
  intros I. apply N. exact (keys_filter_In f _ _ I).
Qed.

Lemma StronglySorted_keys_filter (R : string -> string -> Prop)
  (f : string * A -> bool) o :
  StronglySorted R (Js.keys o) -> StronglySorted R (Js.keys (filter f o)).
Proof.
  induction o as [|x r IH]; simpl; intros S; [constructor|].
  inversion S as [|? ? Sr Fr]; subst.
  destruct (f x); simpl; [|now apply IH].
  constructor; [now apply IH|].
  rewrite Forall_forall in *. intros b Hb. apply Fr.
  exact (keys_filter_In f _ _ Hb).
Qed.

Lemma enumerated_filter (f : string * A -> bool) o :
  enumerated o -> enumerated (filter f o).
Proof.
  intros [S D]. split.
  - now apply StronglySorted_keys_filter.
  - now apply distinct_filter.
Qed.

Lemma filter_partition_perm (f : string * A -> bool) o :
  Permutation (filter f o ++ filter (fun x => negb (f x)) o)%list o.
Proof.
  induction o as [|x r IH]; simpl; [reflexivity|].
  destruct (f x); simpl.
  - now apply perm_skip.
  - rewrite <- Permutation_middle. now apply perm_skip.
Qed.

End Partition.

Section ValidVersions.

Lemma mapValid_literal (deps : Js.Dict string) :
  mapPackagesWithValidVersion deps = Js.literal (filter has_valid_version deps).
Proof.
  unfold mapPackagesWithValidVersion, Js.literal, Js.spread, Js.entries.
  generalize (@nil (string * string)) as acc.
  induction deps as [|[k v] r IH]; intros acc; simpl; [reflexivity|].
  unfold has_valid_version at 1. simpl.
  destruct (Semver.valid v); simpl; apply IH.
Qed.

Lemma mapValid_enumerated (deps : Js.Dict string) :
  enumerated deps ->
  mapPackagesWithValidVersion deps = filter has_valid_version deps.
Proof.
  intros E. rewrite mapValid_literal.
  apply literal_enumerated. now apply enumerated_filter.
Qed.

Lemma mapValid_perm (deps : Js.Dict string) :
  distinct_keys deps ->
  Permutation (filter has_valid_version deps) (mapPackagesWithValidVersion deps).
Proof.
  intros D. rewrite mapValid_literal.
  apply literal_perm. now apply distinct_filter.
Qed.

Lemma invalidEntries_filter (deps : Js.Dict string) :
  invalidEntries deps = filter (fun x => negb (has_valid_version x)) deps.
Proof. reflexivity. Qed.

End ValidVersions.

(** ** Token substitution *)

Section Tokens.

Lemma append_assoc (a b c : string) : (a ++ b) ++ c = a ++ (b ++ c).
Proof. induction a as [|x a IH]; simpl; [reflexivity|]. now rewrite IH. Qed.

Lemma span_app (p : ascii -> bool) (r t w rest : string) :
  Js.span p r = (w, rest) -> starts_outside p t ->
  Js.span p (r ++ t) = (w, rest ++ t).
Proof.
  revert w rest. induction r as [|c r IH]; simpl; intros w rest E O.
  - injection E as <- <-. destruct t as [|d t]; simpl in *; [reflexivity|].
    now rewrite O.
  - destruct (p c).
    + destruct (Js.span p r) as [w' rest'] eqn:E'.
      injection E as <- <-. now rewrite (IH w' rest' eq_refl O).
    + injection E as <- <-. reflexivity.
Qed.

Lemma span_all (p : ascii -> bool) (w t : string) :
  Js.all_chars p w = true -> starts_outside p t -> Js.span p (w ++ t) = (w, t).
Proof.
  induction w as [|c w IH]; simpl; intros H O.
  - destruct t as [|d t]; simpl in *; [reflexivity|]. now rewrite O.
  - apply andb_true_iff in H. destruct H as [Hc Hw].
    now rewrite Hc, (IH Hw O).
Qed.

Lemma replace_tokens_cons f c r :
  replace_tokens f (String c r)
  = match match_token (String c r) with
    | Some (key, rest) => Js.toString (f key) ++ replace_tokens f rest
    | None => String c (replace_tokens f r)
    end.
Proof.
  rewrite replace_tokens_equation_2.
  destruct (inspect (match_token (String c r))) as [[[key rest]|] e].
  - rewrite replace_tokens_clause_2_equation_1. now rewrite e.
  - rewrite replace_tokens_clause_2_equation_2. now rewrite e.
Qed.

Lemma match_token_here (key after : string) :
  is_key key -> match_token (token key ++ after) = Some (key, after).
Proof.
  intros [N K]. unfold token. simpl.
  rewrite append_assoc. rewrite (span_all is_key_char key _ K); [|reflexivity].
  destruct key as [|c key]; [contradiction|]. reflexivity.
Qed.

(** A match that starts before a token ends before it. *)
Lemma match_token_before (pre z : string) :
  pre <> EmptyString ->
  match_token (pre ++ "{{" ++ z)
  = match match_token pre with
    | Some (key, rest) => Some (key, rest ++ "{{" ++ z)
    | None => None
    end.
Proof.
  intros N. destruct pre as [|a [|b r]]; [contradiction| |].
  - simpl. destruct (Ascii.eqb a "{"); reflexivity.
  - change (String a (String b r) ++ "{{" ++ z)
      with (String a (String b (r ++ "{{" ++ z))).
    unfold match_token.
    destruct (Ascii.eqb a "{" && Ascii.eqb b "{"); [|reflexivity].
    destruct (Js.span is_key_char r) as [w rest] eqn:E.
    rewrite (span_app is_key_char r ("{{" ++ z) w rest E); [|reflexivity].
    destruct w as [|w0 w]; [reflexivity|].
    destruct rest as [|c [|d rest]]; simpl; try reflexivity.
    + now rewrite andb_false_r.
    + destruct (Ascii.eqb c "}" && Ascii.eqb d "}"); reflexivity.
Qed.

Lemma replace_tokens_before f (pre z : string) :
  replace_tokens f (pre ++ "{{" ++ z)
  = replace_tokens f pre ++ replace_tokens f ("{{" ++ z).
Proof.
  remember (String.length pre) as n eqn:L.
  revert pre L. induction n as [n IH] using lt_wf_ind. intros pre L.
  destruct pre as [|c r].
  - now rewrite replace_tokens_equation_1.
  - change (String c r ++ "{{" ++ z) with (String c (r ++ "{{" ++ z)).
    rewrite !replace_tokens_cons.
    change (String c (r ++ "{{" ++ z)) with (String c r ++ "{{" ++ z).
    rewrite match_token_before by discriminate.
    destruct (match_token (String c r)) as [[key rest]|] eqn:E.
    + pose proof (match_token_shorter _ _ _ E) as S.
      rewrite (IH (String.length rest)); [|lia|reflexivity].
      now rewrite append_assoc.
    + simpl. rewrite (IH (String.length r)); [reflexivity| |reflexivity].
      subst n. simpl. lia.
Qed.

(** The substitution around one token: the text before it, what the
    replacer returns for its key, the text after it. *)
Lemma replace_tokens_token f (before key after : string) :
  is_key key ->
  replace_tokens f (before ++ token key ++ after)
  = replace_tokens f before ++ Js.toString (f key) ++ replace_tokens f after.
Proof.
  intros K.
  assert (E : token key ++ after = "{{" ++ (key ++ "}}" ++ after)).
  { unfold token. simpl. now rewrite append_assoc. }
  rewrite E, replace_tokens_before, <- E.
  f_equal. unfold token at 1. simpl "++".
  change (String "{" (String "{" ((key ++ "}}") ++ after)))
    with (token key ++ after).
  destruct (token key ++ after) as [|c r] eqn:T.
  - unfold token in T. discriminate.
  - rewrite replace_tokens_cons, <- T, (match_token_here key after K).
    reflexivity.
Qed.

End Tokens.

(** ** Writing the manifest *)

Ltac distinct :=
  unfold distinct_keys; simpl;
  repeat (constructor; [simpl; intuition discriminate|]); constructor.

Section WriteLemmas.

Context {World : Type} (io : Collaborators World).

Lemma get_perm {A} (k : string) (o o' : Js.Dict A) :
  distinct_keys o -> Permutation o o' -> Js.get k o' = Js.get k o.
Proof.
  intros D P.
  assert (D' : distinct_keys o').
  { exact (Permutation_NoDup (Permutation_map fst P) D). }
  destruct (Js.get k o) as [v|] eqn:E.
  - apply In_get; [exact D'|]. apply (Permutation_in _ P). now apply get_In.
  - apply get_None_keys. apply get_None_keys in E. intros I. apply E.
    exact (Permutation_in _ (Permutation_sym (Permutation_map fst P)) I).
Qed.

Lemma write_json_dependencies (r : PackageJson) :
  Js.get "dependencies" (write_json r)
  = Some (Js.Obj (strings (mapPackagesWithValidVersion (dependencies r)))).
Proof.
  unfold write_json. rewrite get_set_other by discriminate.
  apply get_set_same.
Qed.

Lemma write_json_devDependencies (r : PackageJson) :
  Js.get "devDependencies" (write_json r)
  = Some (Js.Obj (strings (mapPackagesWithValidVersion (devDependencies r)))).
Proof. unfold write_json. apply get_set_same. Qed.

Lemma write_unfold (p : ProjectPackageJson) (w : World) :
  write io p w
  = (fst (writeFileSync io (file_path io (write_prepare p)) (write_text p) w),
     write_prepare p,
     snd (writeFileSync io (file_path io (write_prepare p)) (write_text p) w)).
Proof.
  unfold write.
  now destruct (writeFileSync io (file_path io (write_prepare p)) (write_text p) w).
Qed.

Lemma persisted_sorted (deps : Js.Dict string) :
  distinct_keys deps ->
  mapPackagesWithValidVersion (sortKeys deps)
  = filter has_valid_version (sortKeys deps).
Proof.
  intros D. apply mapValid_enumerated, sorted_keys_enumerated.
  now apply sortKeys_sorted.
Qed.

Lemma persisted_entries (deps : Js.Dict string) (k v : string) :
  distinct_keys deps ->
  In (k, v) (filter has_valid_version (sortKeys deps))
  <-> In (k, v) deps /\ Semver.valid v = true.
Proof.
  intros D. rewrite filter_In. unfold has_valid_version. simpl.
  pose proof (sortKeys_perm deps D) as P.
  split; intros [I V]; (split; [|exact V]).
  - exact (Permutation_in _ (Permutation_sym P) I).
  - exact (Permutation_in _ P I).
Qed.

Lemma write_prepare_idempotent (p : ProjectPackageJson) :
  distinct_keys (dependencies (raw p)) ->
  distinct_keys (devDependencies (raw p)) ->
  write_prepare (write_prepare p) = write_prepare p.
Proof.
  intros D1 D2. unfold write_prepare. simpl.
  unfold with_rewrite, with_raw, with_dependencies, with_devDependencies. simpl.
  now rewrite (sortKeys_idempotent _ D1), (sortKeys_idempotent _ D2).
Qed.

End WriteLemmas.

(** * The properties of the specification *)

(** C1, counterexample.  A dependency whose version is the range [^1.0.0],
    a valid range, is not persisted: the file has an empty [dependencies]
    object. *)
Lemma range_version_not_persisted :
  let p := Fixture.project [("pkg", "^1.0.0")] [] in
  Spec.version_or_range "^1.0.0" = true
  /\ Js.get "dependencies" (write_json (raw (write_prepare p)))
     = Some (Js.Obj [])
  /\ Js.get "/work/package.json"
       (Fixture.files (snd (write Fixture.io p Fixture.fresh)))
     = Some (Js.stringify
               [("name", Js.Str "demo"); ("version", Js.Str "1.0.0");
                ("description", Js.Str EmptyString); ("scripts", Js.Obj []);
                ("dependencies", Js.Obj []); ("devDependencies", Js.Obj [])]).
Proof. vm_compute. repeat split; reflexivity. Qed.

(** C1, amended.  [write] hands the file system the JSON text of the
    manifest in which [dependencies] and [devDependencies] hold exactly the
    entries whose version [semver.valid] accepts, that is a semantic
    version (a range expression is not one), in sorted order; every other
    entry, such as one with version [next], is left out. *)
Theorem write_persists_valid_versions
  {World : Type} (io : Collaborators World) (p : ProjectPackageJson) (w : World) :
  distinct_keys (dependencies (raw p)) ->
  distinct_keys (devDependencies (raw p)) ->
  let json := write_json (raw (write_prepare p)) in
  let persisted := filter has_valid_version (sortKeys (dependencies (raw p))) in
  let persistedDev := filter has_valid_version (sortKeys (devDependencies (raw p))) in
  write io p w
  = (fst (writeFileSync io (file_path io (write_prepare p)) (Js.stringify json) w),
     write_prepare p,
     snd (writeFileSync io (file_path io (write_prepare p)) (Js.stringify json) w))
  /\ Js.get "dependencies" json = Some (Js.Obj (strings persisted))
  /\ Js.get "devDependencies" json = Some (Js.Obj (strings persistedDev))
  /\ (forall k v, In (k, v) persisted
                  <-> In (k, v) (dependencies (raw p)) /\ Semver.valid v = true)
  /\ (forall k v, In (k, v) persistedDev
                  <-> In (k, v) (devDependencies (raw p)) /\ Semver.valid v = true)
  /\ (forall k, ~ In (k, "next") persisted /\ ~ In (k, "next") persistedDev).
Proof.
  intros D1 D2 json persisted persistedDev.
  split; [exact (write_unfold io p w)|].
  split.
  { unfold json. rewrite write_json_dependencies. simpl.
    now rewrite (persisted_sorted _ D1). }
  split.
  { unfold json. rewrite write_json_devDependencies. simpl.
    now rewrite (persisted_sorted _ D2). }
  split; [intros k v; now apply persisted_entries|].
  split; [intros k v; now apply persisted_entries|].
  intros k. split; intros I; apply persisted_entries in I; try assumption;
    destruct I as [_ V]; vm_compute in V; discriminate.
Qed.

Lemma write_persists_valid_versions_witness :
  distinct_keys [("pkg", "next"); ("b", "2.0.0"); ("a", "1.0.0")]
  /\ distinct_keys [("dev", "latest")]
  /\ Js.get "dependencies"
       (write_json
          (raw (write_prepare
                  (Fixture.project
                     [("pkg", "next"); ("b", "2.0.0"); ("a", "1.0.0")]
                     [("dev", "latest")]))))
     = Some (Js.Obj [("a", Js.Str "1.0.0"); ("b", Js.Str "2.0.0")]).
Proof.
  assert (D1 : distinct_keys [("pkg", "next"); ("b", "2.0.0"); ("a", "1.0.0")])
    by distinct.
  assert (D2 : distinct_keys [("dev", "latest")]) by distinct.
  split; [exact D1|]. split; [exact D2|].
  destruct (write_persists_valid_versions Fixture.io
              (Fixture.project
                 [("pkg", "next"); ("b", "2.0.0"); ("a", "1.0.0")]
                 [("dev", "latest")])
              Fixture.fresh D1 D2) as (_ & G & _).
  rewrite G. reflexivity.
Defined.

(** C5.  A second [write], with no mutation in between, hands the file
    system the same path and the same text as the first, byte for byte, and
    leaves the manifest in memory as the first left it. *)
Theorem write_twice_same_output
  {World : Type} (io : Collaborators World) (p : ProjectPackageJson) (w : World) :
  distinct_keys (dependencies (raw p)) ->
  distinct_keys (devDependencies (raw p)) ->
  forall r1 p1 w1,
    write io p w = (r1, p1, w1) ->
    r1 = fst (writeFileSync io (file_path io p1) (write_text p) w)
    /\ write_text p1 = write_text p
    /\ write io p1 w1
       = (fst (writeFileSync io (file_path io p1) (write_text p) w1),
          p1,
          snd (writeFileSync io (file_path io p1) (write_text p) w1)).
Proof.
  intros D1 D2 r1 p1 w1 E.
  rewrite write_unfold in E. injection E as <- <- <-.
  pose proof (write_prepare_idempotent p D1 D2) as I.
  assert (T : write_text (write_prepare p) = write_text p).
  { unfold write_text. now rewrite I. }
  split; [reflexivity|]. split; [exact T|].
  rewrite write_unfold, I, T. reflexivity.
Qed.

Lemma write_twice_same_output_witness :
  distinct_keys [("zed", "1.0.0"); ("10", "3.0.0"); ("9", "2.0.0"); ("pkg", "next")]
  /\ distinct_keys [("dev", "latest")]
  /\ let p := Fixture.project
                [("zed", "1.0.0"); ("10", "3.0.0"); ("9", "2.0.0"); ("pkg", "next")]
                [("dev", "latest")] in
     let first := write Fixture.io p Fixture.fresh in
     write_text (snd (fst first)) = write_text p.
Proof.
  assert (D1 : distinct_keys
                 [("zed", "1.0.0"); ("10", "3.0.0"); ("9", "2.0.0"); ("pkg", "next")])
    by distinct.
  assert (D2 : distinct_keys [("dev", "latest")]) by distinct.
  split; [exact D1|]. split; [exact D2|].
  intros p first.
  destruct first as [[r1 p1] w1] eqn:E. simpl.
  exact (proj1 (proj2 (write_twice_same_output Fixture.io p Fixture.fresh
                         D1 D2 r1 p1 w1 E))).
Defined.

(** C10.  [write] removes nothing from the manifest in memory: both maps
    keep every entry with its version, placeholder versions included; the
    maps are put in sorted key order (array indices first, by number, then
    code unit order; plain code unit order when no key is an array index);
    the other fields, the reinstall flag and the configuration are
    untouched; the entries with an invalid version are left out of the
    serialized object only. *)
Theorem write_keeps_entries
  {World : Type} (io : Collaborators World) (p : ProjectPackageJson) (w : World) :
  distinct_keys (dependencies (raw p)) ->
  distinct_keys (devDependencies (raw p)) ->
  let p' := snd (fst (write io p w)) in
  let json := write_json (raw p') in
  (Permutation (dependencies (raw p)) (dependencies (raw p'))
   /\ Permutation (devDependencies (raw p)) (devDependencies (raw p')))
  /\ (forall k, Js.get k (dependencies (raw p')) = Js.get k (dependencies (raw p)))
  /\ (forall k,
        Js.get k (devDependencies (raw p')) = Js.get k (devDependencies (raw p)))
  /\ (sorted_keys (dependencies (raw p')) /\ sorted_keys (devDependencies (raw p')))
  /\ (no_array_index (dependencies (raw p)) -> lexicographic (dependencies (raw p')))
  /\ (no_array_index (devDependencies (raw p)) ->
      lexicographic (devDependencies (raw p')))
  /\ (name (raw p') = name (raw p) /\ version (raw p') = version (raw p)
      /\ description (raw p') = description (raw p)
      /\ scripts (raw p') = scripts (raw p) /\ extra (raw p') = extra (raw p)
      /\ reinstall p' = reinstall p /\ configuration p' = configuration p)
  /\ Js.get "dependencies" json
     = Some (Js.Obj (strings (filter has_valid_version (dependencies (raw p')))))
  /\ Js.get "devDependencies" json
     = Some (Js.Obj (strings (filter has_valid_version (devDependencies (raw p'))))).
Proof.
  intros D1 D2 p' json.
  assert (E : p' = write_prepare p) by (unfold p'; now rewrite write_unfold).
  assert (E1 : dependencies (raw p') = sortKeys (dependencies (raw p)))
    by (now rewrite E).
  assert (E2 : devDependencies (raw p') = sortKeys (devDependencies (raw p)))
    by (now rewrite E).
  pose proof (sortKeys_perm _ D1) as P1. pose proof (sortKeys_perm _ D2) as P2.
  pose proof (sortKeys_sorted _ D1) as S1. pose proof (sortKeys_sorted _ D2) as S2.
  rewrite E1, E2.
  split; [split; assumption|].
  split; [intros k; now apply get_perm|].
  split; [intros k; now apply get_perm|].
  split; [split; assumption|].
  split.
  { intros N. apply sorted_no_index_lexicographic; [exact S1|].
    unfold no_array_index in *.
    exact (Permutation_Forall (Permutation_map fst P1) N). }
  split.
  { intros N. apply sorted_no_index_lexicographic; [exact S2|].
    unfold no_array_index in *.
    exact (Permutation_Forall (Permutation_map fst P2) N). }
  split; [rewrite E; repeat split; reflexivity|].
  unfold json. rewrite write_json_dependencies, write_json_devDependencies.
  rewrite E1, E2, (persisted_sorted _ D1), (persisted_sorted _ D2).
  split; reflexivity.
Qed.

Lemma write_keeps_entries_witness :
  distinct_keys [("zed", "1.0.0"); ("pkg", "next"); ("abc", "^1.0.0")]
  /\ distinct_keys [("dev", "latest")]
  /\ let p := Fixture.project
                [("zed", "1.0.0"); ("pkg", "next"); ("abc", "^1.0.0")]
                [("dev", "latest")] in
     forall k,
       Js.get k (dependencies (raw (snd (fst (write Fixture.io p Fixture.fresh)))))
       = Js.get k (dependencies (raw p)).
Proof.
  assert (D1 : distinct_keys [("zed", "1.0.0"); ("pkg", "next"); ("abc", "^1.0.0")])
    by distinct.
  assert (D2 : distinct_keys [("dev", "latest")]) by distinct.
  split; [exact D1|]. split; [exact D2|].
  intros p.
  exact (proj1 (proj2 (write_keeps_entries Fixture.io p Fixture.fresh D1 D2))).
Defined.

(** ** Adding dependencies *)

(** [addDependency] itself stores the version as it is given; the tokens
    are substituted by [addDependencies] and [addDevDependencies]. *)
Example addDependency_keeps_tokens :
  dependencies (raw (addDependency "b" "{{x}}" (Fixture.project [("a", "1.0.0")] [])))
  = [("a", "1.0.0"); ("b", "{{x}}")].
Proof. reflexivity. Qed.

(** C2.  From a manifest whose dependencies are [{a: 1.0.0}], adding
    [b] with version [{{x}}] under the scope [{x: 2.0.0}] (through
    [addDependencies], the entry point that takes a scope) leaves the
    dependencies [{a: 1.0.0, b: 2.0.0}] and both flags set. *)
Theorem addDependencies_scenario (p : ProjectPackageJson) :
  dependencies (raw p) = [("a", "1.0.0")] ->
  let p' := addDependencies [("b", Some "{{x}}")] [("x", Js.Str "2.0.0")] p in
  Core.getValue "x" (Js.Obj [("x", Js.Str "2.0.0")]) = Js.Str "2.0.0"
  /\ dependencies (raw p') = [("a", "1.0.0"); ("b", "2.0.0")]
  /\ reinstall p' = true
  /\ rewrite p' = true.
Proof.
  intros E p'. split; [reflexivity|].
  unfold p', addDependencies, addDependency. simpl. rewrite E.
  repeat split; reflexivity.
Qed.

Lemma addDependencies_scenario_witness :
  let p := Fixture.project [("a", "1.0.0")] [] in
  dependencies (raw p) = [("a", "1.0.0")]
  /\ dependencies
       (raw (addDependencies [("b", Some "{{x}}")] [("x", Js.Str "2.0.0")] p))
     = [("a", "1.0.0"); ("b", "2.0.0")].
Proof.
  intros p. split; [reflexivity|].
  exact (proj1 (proj2 (addDependencies_scenario p eq_refl))).
Defined.

(** C3, counterexample.  With an empty scope the lookup of [missing] is
    undefined, and the version [{{missing}}] becomes the text [undefined],
    not the empty string, on both paths. *)
Lemma undefined_lookup_is_not_empty :
  Core.getValue "missing" (Js.Obj []) = Js.Undefined
  /\ devDependencies
       (raw (addDevDependencies [("pkg", Some "{{missing}}")] []
               (Fixture.project [] [])))
     = [("pkg", "undefined")]
  /\ dependencies
       (raw (addDependencies [("pkg", Some "{{missing}}")] []
               (Fixture.project [] [])))
     = [("pkg", "undefined")]
  /\ devVersion [] (Some "{{missing}}") <> EmptyString.
Proof. repeat split; try reflexivity. discriminate. Qed.

(** The dedicated placeholder meets the same fate when the context has no
    [tsedVersion]: the string pattern is replaced by the text of
    [undefined]. *)
Example missing_tsedVersion :
  depVersion [] (Some "^{{tsedVersion}}") = "^undefined"
  /\ depVersion [("tsedVersion", Js.Str "6.10.3")] (Some "^{{tsedVersion}}")
     = "^6.10.3".
Proof. split; reflexivity. Qed.

(** C3, amended.  Where the version holds a token whose lookup in the scope
    is undefined, the substitution puts the text [undefined] in the place
    of that token: for [addDevDependencies] in every version string, for
    [addDependencies] in the string the generic substitution receives (the
    version after the dedicated [{{tsedVersion}}] replacement). *)
Theorem undefined_lookup_substitution
  (scope : Js.Dict Js.Value) (before key after : string) :
  is_key key ->
  Core.getValue key (Js.Obj scope) = Js.Undefined ->
  devVersion scope (Some (before ++ token key ++ after))
  = devVersion scope (Some before) ++ "undefined" ++ devVersion scope (Some after)
  /\ forall version,
       Js.replace_string "{{tsedVersion}}"
         (Js.toString (Js.prop "tsedVersion" (Js.Obj scope)))
         (version_or_empty version)
       = before ++ token key ++ after ->
       depVersion scope version
       = devVersion scope (Some before) ++ "undefined"
         ++ devVersion scope (Some after).
Proof.
  intros K U.
  assert (R : replace_tokens (replacer scope) (before ++ token key ++ after)
              = replace_tokens (replacer scope) before ++ "undefined"
                ++ replace_tokens (replacer scope) after).
  { rewrite (replace_tokens_token _ before key after K).
    unfold replacer at 2. now rewrite U. }
  split; [exact R|].
  intros version E. unfold depVersion. rewrite E. exact R.
Qed.

Lemma undefined_lookup_substitution_witness :
  is_key "a.b"
  /\ Core.getValue "a.b" (Js.Obj [("x", Js.Str "2.0.0")]) = Js.Undefined
  /\ devVersion [("x", Js.Str "2.0.0")] (Some "^{{a.b}}-{{x}}")
     = "^undefined-2.0.0"
  /\ depVersion [("x", Js.Str "2.0.0")] (Some "^{{a.b}}-{{x}}")
     = "^undefined-2.0.0".
Proof.
  assert (K : is_key "a.b") by (split; [discriminate|reflexivity]).
  assert (U : Core.getValue "a.b" (Js.Obj [("x", Js.Str "2.0.0")]) = Js.Undefined)
    by reflexivity.
  split; [exact K|]. split; [exact U|].
  destruct (undefined_lookup_substitution
              [("x", Js.Str "2.0.0")] "^" "a.b" "-{{x}}" K U) as [H1 H2].
  split.
  - exact H1.
  - exact (H2 (Some "^{{a.b}}-{{x}}") eq_refl).
Defined.

(** ** The version partitioner *)

Section PartitionLemmas.

Lemma keys_valid (deps : Js.Dict string) (k : string) :
  distinct_keys deps ->
  In k (Js.keys (mapPackagesWithValidVersion deps))
  <-> exists v, In (k, v) deps /\ Semver.valid v = true.
Proof.
  intros D. pose proof (mapValid_perm deps D) as P. unfold Js.keys. split.
  - intros I. apply in_map_iff in I. destruct I as [[k' v] [E I]].
    simpl in E. subst k'.
    apply (Permutation_in _ (Permutation_sym P)) in I.
    apply filter_In in I. exists v. exact I.
  - intros [v [I V]]. apply in_map_iff. exists (k, v). split; [reflexivity|].
    apply (Permutation_in _ P). apply filter_In. now split.
Qed.

Lemma names_invalid (deps : Js.Dict string) (k : string) :
  In k (map fst (invalidEntries deps))
  <-> exists v, In (k, v) deps /\ Semver.valid v = false.
Proof.
  unfold invalidEntries, Js.entries. rewrite in_map_iff. split.
  - intros [[k' v] [E I]]. simpl in E. subst k'.
    apply filter_In in I. simpl in I. exists v.
    destruct I as [I V]. split; [exact I|]. now apply negb_true_iff.
  - intros [v [I V]]. exists (k, v). split; [reflexivity|].
    apply filter_In. simpl. split; [exact I|]. now apply negb_true_iff.
Qed.

Lemma toString_spec (name version : string) :
  toString (name, version)
  = if String.eqb version "latest" then name else name ++ "@" ++ version.
Proof. unfold toString. simpl. now destruct (String.eqb version "latest"). Qed.

Lemma prefix_append (a b : string) : String.prefix a (a ++ b) = true.
Proof.
  induction a as [|c a IH]; simpl; [now destruct b|].
  destruct (ascii_dec c c); [exact IH|contradiction].
Qed.

(** A target starts with the name of its entry. *)
Lemma toString_prefix (info : string * string) :
  String.prefix (fst info) (toString info) = true.
Proof.
  destruct info as [name version]. rewrite toString_spec. simpl.
  destruct (String.eqb version "latest").
  - induction name as [|c n IH]; simpl; [reflexivity|].
    destruct (ascii_dec c c); [exact IH|contradiction].
  - apply prefix_append.
Qed.

Lemma invalidEntries_app (a b : Js.Dict string) :
  invalidEntries (a ++ b)%list = (invalidEntries a ++ invalidEntries b)%list.
Proof. unfold invalidEntries, Js.entries. apply filter_app. Qed.

Lemma invalidEntries_update (k v : string) (o : Js.Dict string) :
  invalidEntries o = [] -> Semver.valid v = false -> In k (Js.keys o) ->
  invalidEntries (Js.update k v o) = [(k, v)].
Proof.
  unfold invalidEntries, Js.entries.
  induction o as [|[k' v'] r IH]; simpl; intros E V I; [contradiction|].
  destruct (Semver.valid v') eqn:V'; simpl in E; [|discriminate].
  destruct (String.eqb_spec k' k) as [->|N]; simpl.
  - now rewrite V, E.
  - rewrite V'. simpl. apply IH; try assumption. tauto.
Qed.

Lemma invalidEntries_insert (n : N) (k v : string) (o : Js.Dict string) :
  invalidEntries o = [] -> Semver.valid v = false ->
  invalidEntries (Js.insert_index n k v o) = [(k, v)].
Proof.
  unfold invalidEntries, Js.entries.
  induction o as [|[k' v'] r IH]; simpl; intros E V.
  - now rewrite V.
  - destruct (Semver.valid v') eqn:V'; simpl in E; [|discriminate].
    destruct (Js.array_index k') as [n'|]; simpl.
    + destruct (n' <? n)%N; simpl.
      * rewrite V'. simpl. now apply IH.
      * now rewrite V, V', E.
    + now rewrite V, V', E.
Qed.

(** Setting a placeholder version on a map that had none leaves exactly
    one placeholder entry. *)
Lemma invalidEntries_set (k v : string) (o : Js.Dict string) :
  invalidEntries o = [] -> Semver.valid v = false ->
  invalidEntries (Js.set k v o) = [(k, v)].
Proof.
  intros E V. unfold Js.set. destruct (Js.has k o) eqn:H.
  - apply invalidEntries_update; try assumption. now apply has_true.
  - destruct (Js.array_index k).
    + now apply invalidEntries_insert.
    + rewrite invalidEntries_app, E. unfold invalidEntries. simpl.
      now rewrite V.
Qed.

End PartitionLemmas.

(** C4.  For a dependency map, the keys of the valid partition and the
    names behind the install targets of the invalid partition (each target
    is [toString] of its entry) are disjoint and together are the keys of
    the map. *)
Theorem partition_reconstructs_keys (deps : Js.Dict string) :
  distinct_keys deps ->
  let valid := Js.keys (mapPackagesWithValidVersion deps) in
  let names := map fst (invalidEntries deps) in
  mapPackagesWithInvalidVersion deps = map toString (invalidEntries deps)
  /\ (forall info, String.prefix (fst info) (toString info) = true)
  /\ (forall k, In k (Js.keys deps) <-> In k valid \/ In k names)
  /\ (forall k, In k valid -> In k names -> False)
  /\ Permutation (valid ++ names)%list (Js.keys deps)
  /\ NoDup (valid ++ names)%list.
Proof.
  intros D valid names.
  assert (P : Permutation (valid ++ names)%list (Js.keys deps)).
  { unfold valid, names, Js.keys.
    rewrite <- (Permutation_map fst (mapValid_perm deps D)).
    rewrite invalidEntries_filter, <- map_app.
    apply Permutation_map. apply filter_partition_perm. }
  assert (U : NoDup (valid ++ names)%list).
  { exact (Permutation_NoDup (Permutation_sym P) D). }
  split; [reflexivity|].
  split; [exact toString_prefix|].
  split.
  { intros k. rewrite <- in_app_iff. split; intros I.
    - exact (Permutation_in _ (Permutation_sym P) I).
    - exact (Permutation_in _ P I). }
  split; [|split; assumption].
  intros k Iv In'. apply in_split in Iv. destruct Iv as [l1 [l2 ->]].
  rewrite <- app_assoc in U. simpl in U.
  apply NoDup_remove_2 in U. apply U.
  apply in_or_app. right. apply in_or_app. now right.
Qed.

Lemma partition_reconstructs_keys_witness :
  let deps := [("zed", "1.0.0"); ("pkg", "next"); ("@tsed/core", "latest");
               ("abc", "2.1.0")] in
  distinct_keys deps
  /\ Permutation
       (Js.keys (mapPackagesWithValidVersion deps)
        ++ map fst (invalidEntries deps))%list
       (Js.keys deps)
  /\ mapPackagesWithInvalidVersion deps = ["pkg@next"; "@tsed/core"].
Proof.
  intros deps.
  assert (D : distinct_keys deps) by distinct.
  split; [exact D|]. split.
  - exact (proj1 (proj2 (proj2 (proj2 (proj2
             (partition_reconstructs_keys deps D)))))).
  - reflexivity.
Defined.

(** C9.  The install target of a placeholder entry is the bare name when
    its version is exactly [latest] and [name@version] otherwise; after
    [addDependency("pkg", "latest")] on a manifest without placeholder
    dependencies, the target list is [["pkg"]] and the npm task that adds
    dependencies is [npm install --save pkg] (with [--verbose] between
    when asked for). *)
Theorem install_target_of_placeholder (options : InstallOptions) (p : ProjectPackageJson) :
  mapPackagesWithInvalidVersion (dependencies (raw p)) = [] ->
  let p' := addDependency "pkg" "latest" p in
  (forall deps, mapPackagesWithInvalidVersion deps = map toString (invalidEntries deps))
  /\ (forall name version,
        toString (name, version)
        = if String.eqb version "latest" then name else name ++ "@" ++ version)
  /\ (forall name, toString (name, "latest") = name)
  /\ mapPackagesWithInvalidVersion (dependencies (raw p')) = ["pkg"]
  /\ nth_error (installWithNpm options p') 1
     = Some {| title := "Add dependencies using npm";
               enabled := None;
               skip := Some (fun _ => false);
               task :=
                 CallRun "npm"
                   (Js.filter_Boolean
                      [Js.Str "install"; Js.Str "--save";
                       Js.and_ (verbose options) (Js.Str "--verbose");
                       Js.Str "pkg"])
                   (dir p') None |}.
Proof.
  intros E p'.
  assert (T : mapPackagesWithInvalidVersion (dependencies (raw p')) = ["pkg"]).
  { unfold p', addDependency. simpl. unfold mapPackagesWithInvalidVersion in *.
    apply map_eq_nil in E.
    now rewrite (invalidEntries_set "pkg" "latest" _ E eq_refl). }
  split; [reflexivity|].
  split; [exact toString_spec|].
  split; [reflexivity|].
  split; [exact T|].
  unfold installWithNpm. cbv zeta. rewrite T. reflexivity.
Qed.

Lemma install_target_of_placeholder_witness :
  let p := Fixture.project [("a", "1.0.0")] [] in
  mapPackagesWithInvalidVersion (dependencies (raw p)) = []
  /\ mapPackagesWithInvalidVersion
       (dependencies (raw (addDependency "pkg" "latest" p)))
     = ["pkg"].
Proof.
  intros p. split; [reflexivity|].
  exact (proj1 (proj2 (proj2 (proj2
    (install_target_of_placeholder
       {| packageManager := Some npm; verbose := Js.Undefined |} p eq_refl))))).
Defined.

(** ** The flags *)

Section Flags.

Lemma fold_sets_rewrite {B} (step : ProjectPackageJson -> B -> ProjectPackageJson)
  (l : list B) (p : ProjectPackageJson) :
  (forall q x, rewrite (step q x) = true) ->
  l <> [] -> rewrite (fold_left step l p) = true.
Proof.
  intros S N. destruct l as [|x l] using rev_ind; [contradiction|].
  rewrite fold_left_app. simpl. apply S.
Qed.

End Flags.

(** C6, counterexample.  On a read-only disk [write] fails, and the
    rewrite flag, set by the mutation before, is cleared all the same. *)
Lemma failed_write_clears_rewrite :
  let p := addDependency "pkg" "1.0.0" (Fixture.project [] []) in
  let result := write Fixture.io p Fixture.locked in
  rewrite p = true
  /\ fst (fst result) = Js.Throw (Js.Error "EROFS: read-only file system")
  /\ Fixture.files (snd result) = []
  /\ rewrite (snd (fst result)) = false.
Proof. repeat split; reflexivity. Qed.

(** C6, amended.  Every mutation sets the rewrite flag: the name setter,
    [addDependency], [addDevDependency], [addScript], the batch forms when
    they are given at least one entry, [add] and [set]; [write] clears the
    flag before it hands the text to the file system, so the flag is clear
    after [write] whatever the file system answers. *)
Theorem rewrite_flag
  {World : Type} (io : Collaborators World) (p : ProjectPackageJson) (w : World) :
  (forall s, rewrite (set_name s p) = true)
  /\ (forall pkg version, rewrite (addDependency pkg version p) = true)
  /\ (forall pkg version, rewrite (addDevDependency pkg version p) = true)
  /\ (forall task cmd, rewrite (addScript task cmd p) = true)
  /\ (forall modules ctx,
        modules <> [] -> rewrite (addDependencies modules ctx p) = true)
  /\ (forall modules scope,
        modules <> [] -> rewrite (addDevDependencies modules scope p) = true)
  /\ (forall scripts, scripts <> [] -> rewrite (addScripts scripts p) = true)
  /\ (forall key data p', add key data p = Some p' -> rewrite p' = true)
  /\ (forall key value p', set key value p = Some p' -> rewrite p' = true)
  /\ rewrite (snd (fst (write io p w))) = false.
Proof.
  repeat split; try reflexivity.
  - intros modules ctx N. unfold addDependencies, Js.entries.
    now apply fold_sets_rewrite.
  - intros modules scope N. unfold addDevDependencies, Js.entries.
    now apply fold_sets_rewrite.
  - intros scripts N. unfold addScripts, Js.entries.
    now apply fold_sets_rewrite.
  - intros key data p'. unfold add.
    destruct (field_of key data); simpl; [|discriminate].
    now intros [= <-].
  - intros key value p'. unfold set.
    destruct (field_of key value); [|discriminate].
    unfold option_map. intros E. injection E as <-.
    match goal with
    | |- rewrite (if ?b then _ else _) = true => destruct b; reflexivity
    end.
  - now rewrite write_unfold.
Qed.

Lemma rewrite_flag_witness :
  let p := Fixture.project [] [] in
  [("pkg", Some "{{x}}")] <> []
  /\ set "license" (Js.Str "MIT") p
     = Some (with_rewrite true
               (with_raw (put (FOther "license" (Js.Str "MIT")) (raw p)) p))
  /\ rewrite (addDependencies [("pkg", Some "{{x}}")] [] p) = true
  /\ rewrite (with_rewrite true
                (with_raw (put (FOther "license" (Js.Str "MIT")) (raw p)) p))
     = true
  /\ rewrite (snd (fst (write Fixture.io (set_name "other" p) Fixture.locked)))
     = false.
Proof.
  intros p.
  assert (N : [("pkg", Some "{{x}}")] <> ([] : Js.Dict (option string)))
    by discriminate.
  assert (S : set "license" (Js.Str "MIT") p
              = Some (with_rewrite true
                        (with_raw (put (FOther "license" (Js.Str "MIT")) (raw p)) p)))
    by reflexivity.
  split; [exact N|]. split; [exact S|].
  destruct (rewrite_flag Fixture.io p Fixture.locked)
    as (_ & _ & _ & _ & Hdeps & _ & _ & _ & Hset & _).
  split; [exact (Hdeps _ [] N)|].
  split; [exact (Hset _ _ _ S)|].
  exact (proj2 (proj2 (proj2 (proj2 (proj2 (proj2 (proj2 (proj2 (proj2
    (rewrite_flag Fixture.io (set_name "other" p) Fixture.locked)))))))))).
Defined.

(** ** Installing *)

Section Runner.

Context {World : Type} (io : Collaborators World).

(** The failure of the first task that runs is the failure of the run. *)
Lemma runTasks_first_failure (t : Task) (rest : list Task)
  (p p' : ProjectPackageJson) (w w' : World) (e : Js.Failure) :
  is_enabled t p = true -> is_skipped t p = false ->
  perform io (task t) p w = (Js.Throw e, p', w') ->
  runTasks io (t :: rest) p w = (Js.Throw e, p', w').
Proof. intros En Sk P. simpl. now rewrite En, Sk, P. Qed.

Lemma perform_failed_run (cmd : string) (args : list Js.Value) (cwd : string)
  (selector : option (string -> string -> Js.Completion unit))
  (p : ProjectPackageJson) (w w' : World) (message stderr : string) :
  run io cmd args cwd w = (Failed message stderr, w') ->
  perform io (CallRun cmd args cwd selector) p w
  = (match selector with
     | Some f => f message stderr
     | None => Js.Throw (Js.ExecaError message stderr)
     end, p, w').
Proof. intros R. simpl. rewrite R. now destruct selector. Qed.

Lemma yarn_tasks_selector (options : InstallOptions) (p0 : ProjectPackageJson)
  (t : Task) cmd args cwd selector :
  In t (installWithYarn options p0) -> task t = CallRun cmd args cwd selector ->
  selector = Some yarnErrorPipe.
Proof.
  intros I T. simpl in I.
  destruct I as [<-|[<-|[<-|[]]]]; simpl in T; congruence.
Qed.

Lemma npm_tasks_selector (options : InstallOptions) (p0 : ProjectPackageJson)
  (t : Task) cmd args cwd selector :
  In t (installWithNpm options p0) -> task t = CallRun cmd args cwd selector ->
  selector = None.
Proof.
  intros I T. simpl in I.
  destruct I as [<-|[<-|[<-|[]]]]; simpl in T; congruence.
Qed.

End Runner.

(** C7.  When the subprocess of a task of the yarn backend fails, the task
    fails with what the error selector yields, and so does the run of the
    tasks: an [Error] whose message is exactly the lockfile message when
    the captured error stream starts with the lockfile signature, the
    failure of the subprocess itself otherwise.  A task of the npm backend
    always fails with the failure of the subprocess itself. *)
Theorem yarn_lockfile_error_translation
  {World : Type} (io : Collaborators World)
  (options : InstallOptions) (p0 p : ProjectPackageJson) (w w' : World)
  (t : Task) (rest : list Task)
  (cmd : string) (args : list Js.Value) (cwd : string)
  (selector : option (string -> string -> Js.Completion unit))
  (message stderr : string) :
  task t = CallRun cmd args cwd selector ->
  run io cmd args cwd w = (Failed message stderr, w') ->
  let stale := Js.startsWith stderr "error Your lockfile needs to be updated" in
  let surfaced :=
    if stale
    then Js.Error
           "yarn.lock file is outdated. Run yarn, commit the updated lockfile and try again."
    else Js.ExecaError message stderr in
  (In t (installWithYarn options p0) ->
   perform io (task t) p w = (Js.Throw surfaced, p, w')
   /\ (is_enabled t p = true -> is_skipped t p = false ->
       runTasks io (t :: rest) p w = (Js.Throw surfaced, p, w'))
   /\ (stale = true ->
       Js.message_of surfaced
       = "yarn.lock file is outdated. Run yarn, commit the updated lockfile and try again.")
   /\ (stale = false -> surfaced = Js.ExecaError message stderr))
  /\ (In t (installWithNpm options p0) ->
      perform io (task t) p w = (Js.Throw (Js.ExecaError message stderr), p, w')
      /\ (is_enabled t p = true -> is_skipped t p = false ->
          runTasks io (t :: rest) p w
          = (Js.Throw (Js.ExecaError message stderr), p, w'))).
Proof.
  intros T R stale surfaced. split; intros I.
  - assert (P : perform io (task t) p w = (Js.Throw surfaced, p, w')).
    { rewrite T, (perform_failed_run io _ _ _ _ _ _ _ _ _ R).
      rewrite (yarn_tasks_selector options p0 t _ _ _ _ I T).
      unfold yarnErrorPipe, surfaced, stale.
      now destruct (Js.startsWith stderr "error Your lockfile needs to be updated"). }
    split; [exact P|]. split.
    + intros En Sk. now apply runTasks_first_failure.
    + unfold surfaced. split; intros ->; reflexivity.
  - assert (P : perform io (task t) p w
                = (Js.Throw (Js.ExecaError message stderr), p, w')).
    { rewrite T, (perform_failed_run io _ _ _ _ _ _ _ _ _ R).
      now rewrite (npm_tasks_selector options p0 t _ _ _ _ I T). }
    split; [exact P|].
    intros En Sk. now apply runTasks_first_failure.
Qed.

Lemma yarn_lockfile_error_translation_witness :
  let options := {| packageManager := Some yarn; verbose := Js.Undefined |} in
  let p := addDependency "pkg" "1.0.0" (Fixture.project [] []) in
  let stderr :=
    "error Your lockfile needs to be updated, but yarn was run with `--frozen-lockfile`." in
  let w := Fixture.failing "Command failed with exit code 1" stderr in
  let t := hd cleanTask (installWithYarn options p) in
  let args := [Js.Str "install"; Js.Str "--production=false"] in
  task t = CallRun "yarn" args "/work" (Some yarnErrorPipe)
  /\ run Fixture.io "yarn" args "/work" w
     = (Failed "Command failed with exit code 1" stderr, w)
  /\ In t (installWithYarn options p)
  /\ is_enabled t p = true
  /\ is_skipped t p = false
  /\ runTasks Fixture.io (t :: installWithNpm options p) p w
     = (Js.Throw
          (Js.Error
             "yarn.lock file is outdated. Run yarn, commit the updated lockfile and try again."),
        p, w).
Proof.
  intros options p stderr w t args.
  assert (T : task t = CallRun "yarn" args "/work" (Some yarnErrorPipe))
    by reflexivity.
  assert (R : run Fixture.io "yarn" args "/work" w
              = (Failed "Command failed with exit code 1" stderr, w))
    by reflexivity.
  assert (I : In t (installWithYarn options p)) by (left; reflexivity).
  assert (En : is_enabled t p = true) by reflexivity.
  assert (Sk : is_skipped t p = false) by reflexivity.
  repeat (split; [assumption|]).
  exact (proj1 (proj2
           (proj1
              (yarn_lockfile_error_translation Fixture.io options p p w w t
                 (installWithNpm options p) "yarn" args "/work"
                 (Some yarnErrorPipe)
                 "Command failed with exit code 1" stderr T R)
              I))
           En Sk).
Defined.

(** The whole install cycle on a stale lockfile: the manifest is written,
    the bulk install fails, and the run ends with the lockfile message; the
    clean-up task is not reached. *)
Example stale_lockfile_run :
  let p := addDependency "pkg" "1.0.0" (Fixture.project [] []) in
  let w := Fixture.failing "Command failed with exit code 1"
             "error Your lockfile needs to be updated" in
  let result :=
    runInstall Fixture.io {| packageManager := None; verbose := Js.Undefined |} p w in
  fst (fst result)
  = Js.Throw
      (Js.Error
         "yarn.lock file is outdated. Run yarn, commit the updated lockfile and try again.")
  /\ reinstall (snd (fst result)) = true
  /\ Js.has "/work/package.json" (Fixture.files (snd result)) = true.
Proof. vm_compute. repeat split; reflexivity. Qed.

(** C8.  [install] asks for yarn when the options name no package manager;
    when yarn is asked for and the probe [yarn --version] throws, the task
    list is the one of the npm backend between the write and the clean-up
    tasks, and [install] itself does not fail; when the probe succeeds the
    list is the one of the yarn backend; when npm is asked for there is no
    probe. *)
Theorem install_falls_back_to_npm
  {World : Type} (io : Collaborators World)
  (options : InstallOptions) (p : ProjectPackageJson) (w : World) :
  (packageManager options = None ->
   install io options p w
   = install io {| packageManager := Some yarn; verbose := verbose options |} p w)
  /\ (forall e w',
        packageManager options = None \/ packageManager options = Some yarn ->
        runSync io "yarn" ["--version"] w = (Js.Throw e, w') ->
        install io options p w
        = (([writeTask] ++ installWithNpm options p ++ [cleanTask])%list, w'))
  /\ (forall u w',
        packageManager options = None \/ packageManager options = Some yarn ->
        runSync io "yarn" ["--version"] w = (Js.Normal u, w') ->
        install io options p w
        = (([writeTask] ++ installWithYarn options p ++ [cleanTask])%list, w'))
  /\ (packageManager options = Some npm ->
      install io options p w
      = (([writeTask] ++ installWithNpm options p ++ [cleanTask])%list, w)).
Proof.
  unfold install, chooseBackend, hasYarn.
  split; [intros ->; reflexivity|].
  split; [|split].
  - intros e w' [-> | ->] R; now rewrite R.
  - intros u w' [-> | ->] R; now rewrite R.
  - now intros ->.
Qed.

Lemma install_falls_back_to_npm_witness :
  let options := {| packageManager := None; verbose := Js.Undefined |} in
  let p := addDependency "pkg" "latest" (Fixture.project [] []) in
  packageManager options = None
  /\ runSync Fixture.io "yarn" ["--version"] Fixture.without_yarn
     = (Js.Throw (Js.Error "spawnSync yarn ENOENT"), Fixture.without_yarn)
  /\ map title (fst (install Fixture.io options p Fixture.without_yarn))
     = ["Write package.json"; "Installing dependencies using npm";
        "Add dependencies using npm"; "Add devDependencies using npm"; "Clean"].
Proof.
  intros options p.
  assert (R : runSync Fixture.io "yarn" ["--version"] Fixture.without_yarn
              = (Js.Throw (Js.Error "spawnSync yarn ENOENT"), Fixture.without_yarn))
    by reflexivity.
  split; [reflexivity|]. split; [exact R|].
  rewrite (proj1 (proj2 (install_falls_back_to_npm Fixture.io options p
                           Fixture.without_yarn))
             _ _ (or_introl eq_refl) R).
  reflexivity.
Defined.

(** * Further properties of the code *)

(** ** Lookups in built objects *)

Section Lookups.

Context {A : Type}.
Implicit Types (o a b : Js.Dict A) (k : string) (v : A).

(** In a spread the right-hand object wins. *)
Lemma get_spread k a b :
  distinct_keys b ->
  Js.get k (Js.spread a b)
  = match Js.get k b with
    | Some v => Some v
    | None => Js.get k a
    end.
Proof.
  unfold Js.spread, distinct_keys. revert a.
  induction b as [|[k0 v0] b IH]; intros a D; simpl; [reflexivity|].
  inversion D as [|? ? N Db]; subst. rewrite (IH _ Db).
  destruct (String.eqb_spec k0 k) as [->|Ne].
  - apply get_None_keys in N. rewrite N. apply get_set_same.
  - rewrite get_set_other by congruence. reflexivity.
Qed.

Lemma keys_spread_In k a b :
  In k (Js.keys (Js.spread a b)) <-> In k (Js.keys a) \/ In k (Js.keys b).
Proof.
  unfold Js.spread. revert a.
  induction b as [|[k0 v0] b IH]; intros a; simpl; [tauto|].
  rewrite IH, keys_set_In. intuition.
Qed.

Lemma distinct_spread a b : distinct_keys a -> distinct_keys (Js.spread a b).
Proof.
  unfold Js.spread. revert a.
  induction b as [|[k0 v0] b IH]; intros a D; simpl; [exact D|].
  apply IH. now apply distinct_set.
Qed.

Lemma update_update k v v' o : Js.update k v' (Js.update k v o) = Js.update k v' o.
Proof.
  induction o as [|[k0 v0] r IH]; simpl; [reflexivity|].
  destruct (String.eqb_spec k0 k) as [->|N]; simpl.
  - now rewrite String.eqb_refl.
  - destruct (String.eqb_spec k0 k); [contradiction|]. now rewrite IH.
Qed.

Lemma update_insert_index n k v v' o :
  ~ In k (Js.keys o) ->
  Js.update k v' (Js.insert_index n k v o) = Js.insert_index n k v' o.
Proof.
  induction o as [|[k0 v0] r IH]; simpl; intros N.
  - now rewrite String.eqb_refl.
  - assert (N0 : k0 <> k) by tauto.
    assert (Nr : ~ In k (Js.keys r)) by tauto.
    destruct (Js.array_index k0) as [n0|]; simpl.
    + destruct (n0 <? n)%N; simpl.
      * destruct (String.eqb_spec k0 k); [contradiction|]. now rewrite IH.
      * now rewrite String.eqb_refl.
    + now rewrite String.eqb_refl.
Qed.

Lemma update_snoc k v v' o :
  ~ In k (Js.keys o) ->
  Js.update k v' (o ++ [(k, v)])%list = (o ++ [(k, v')])%list.
Proof.
  induction o as [|[k0 v0] r IH]; simpl; intros N.
  - now rewrite String.eqb_refl.
  - destruct (String.eqb_spec k0 k) as [->|_]; [tauto|].
    rewrite IH; tauto.
Qed.

(** Setting a key twice is setting it once, with the last value. *)
Lemma set_set k v v' o : Js.set k v' (Js.set k v o) = Js.set k v' o.
Proof.
  assert (H : Js.has k (Js.set k v o) = true).
  { apply has_true, keys_set_In. now left. }
  unfold Js.set at 1. rewrite H. unfold Js.set.
  destruct (Js.has k o) eqn:E.
  - apply update_update.
  - apply has_false in E. destruct (Js.array_index k).
    + now apply update_insert_index.
    + now apply update_snoc.
Qed.

End Lookups.

(** ** The mutators *)

(** X1.  [allDependencies] holds every package of both maps, and where a
    package is in both the version of [devDependencies] is the one it
    shows. *)
Theorem allDependencies_lookup (p : ProjectPackageJson) (k : string) :
  distinct_keys (dependencies (raw p)) ->
  distinct_keys (devDependencies (raw p)) ->
  Js.get k (allDependencies p)
  = match Js.get k (devDependencies (raw p)) with
    | Some v => Some v
    | None => Js.get k (dependencies (raw p))
    end
  /\ (In k (Js.keys (allDependencies p))
      <-> In k (Js.keys (dependencies (raw p)))
          \/ In k (Js.keys (devDependencies (raw p))))
  /\ distinct_keys (allDependencies p).
Proof.
  intros D1 D2. unfold allDependencies. split; [|split].
  - rewrite (get_spread k _ _ D2), (get_spread k _ _ D1). simpl.
    now destruct (Js.get k (dependencies (raw p))).
  - rewrite !keys_spread_In. simpl. tauto.
  - apply distinct_spread, distinct_spread. constructor.
Qed.

Lemma allDependencies_lookup_witness :
  let p := Fixture.project [("a", "1.0.0"); ("b", "2.0.0")] [("b", "next")] in
  distinct_keys (dependencies (raw p))
  /\ distinct_keys (devDependencies (raw p))
  /\ Js.get "b" (allDependencies p) = Some "next"
  /\ Js.get "a" (allDependencies p) = Some "1.0.0".
Proof.
  intros p.
  assert (D1 : distinct_keys (dependencies (raw p))) by distinct.
  assert (D2 : distinct_keys (devDependencies (raw p))) by distinct.
  split; [exact D1|]. split; [exact D2|]. split.
  - rewrite (proj1 (allDependencies_lookup p "b" D1 D2)). reflexivity.
  - rewrite (proj1 (allDependencies_lookup p "a" D1 D2)). reflexivity.
Defined.

(** X2.  [set] asks for a reinstall exactly when the key is one of
    [dependencies], [devDependencies] and [peerDependencies], and leaves
    the flag as it was otherwise; [add] never touches the flag, whatever
    the key.  Both set the rewrite flag. *)
Theorem set_and_add_reinstall
  (key : string) (value : Js.Value) (p p' : ProjectPackageJson) :
  (set key value p = Some p' ->
   rewrite p' = true
   /\ reinstall p'
      = if String.eqb key "dependencies" || String.eqb key "devDependencies"
           || String.eqb key "peerDependencies"
        then true else reinstall p)
  /\ (add key value p = Some p' ->
      rewrite p' = true /\ reinstall p' = reinstall p
      /\ set key value p
         = Some (if String.eqb key "dependencies"
                    || String.eqb key "devDependencies"
                    || String.eqb key "peerDependencies"
                 then with_reinstall true p' else p')).
Proof.
  unfold set, add, includes. simpl existsb. rewrite orb_false_r.
  destruct (field_of key value) as [f|]; simpl; split; try discriminate.
  - intros [= <-]. rewrite orb_assoc.
    now destruct (String.eqb key "dependencies" || String.eqb key "devDependencies"
                  || String.eqb key "peerDependencies").
  - intros [= <-]. repeat split. now rewrite orb_assoc.
Qed.

Lemma set_and_add_reinstall_witness :
  let p := Fixture.project [] [] in
  let value := Js.Obj [("react", Js.Str "17.0.0")] in
  exists p1 p2,
    set "peerDependencies" value p = Some p1
    /\ add "peerDependencies" value p = Some p2
    /\ reinstall p1 = true /\ reinstall p2 = false.
Proof.
  intros p value.
  destruct (set "peerDependencies" value p) as [p1|] eqn:E1; [|discriminate].
  destruct (add "peerDependencies" value p) as [p2|] eqn:E2; [|discriminate].
  exists p1, p2. split; [reflexivity|]. split; [reflexivity|]. split.
  - exact (proj2 (proj1 (set_and_add_reinstall _ _ p p1) E1)).
  - exact (proj1 (proj2 (proj2 (set_and_add_reinstall _ _ p p2) E2))).
Defined.


(** X4.  Adding the same package twice is adding it once with the last
    version: the entry is replaced where it stands, never duplicated. *)
Theorem addDependency_last_wins (pkg v1 v2 : string) (p : ProjectPackageJson) :
  addDependency pkg v2 (addDependency pkg v1 p) = addDependency pkg v2 p
  /\ addDevDependency pkg v2 (addDevDependency pkg v1 p) = addDevDependency pkg v2 p
  /\ addScript pkg v2 (addScript pkg v1 p) = addScript pkg v2 p
  /\ Js.keys (dependencies (raw (addDependency pkg v2 (addDependency pkg v1 p))))
     = Js.keys (dependencies (raw (addDependency pkg v1 p))).
Proof.
  destruct p as [[n v d s deps dev ex] rw ri cfg].
  unfold addDependency, addDevDependency, addScript, with_rewrite, with_reinstall,
    with_raw, with_dependencies, with_devDependencies, with_scripts. simpl.
  rewrite !set_set. repeat split.
  assert (H : Js.has pkg (Js.set pkg v1 deps) = true).
  { apply has_true, keys_set_In. now left. }
  rewrite <- (set_set pkg v1 v2 deps). unfold Js.set at 1. rewrite H.
  apply keys_update.
Qed.


Section Batches.





End Batches.



(** ** Versions and their tokens *)

Section PlainText.

Lemma free_of_app (c : ascii) (a b : string) :
  free_of c (a ++ b) <-> free_of c a /\ free_of c b.
Proof.
  unfold free_of. induction a as [|x a IH]; simpl.
  - intuition.
  - rewrite !andb_true_iff, IH. tauto.
Qed.

Lemma free_of_cons (c x : ascii) (s : string) :
  free_of c (String x s) <-> x <> c /\ free_of c s.
Proof.
  unfold free_of. simpl. rewrite andb_true_iff, negb_true_iff.
  destruct (Ascii.eqb_spec x c); intuition congruence.
Qed.

Lemma key_char_no_brace (c : ascii) :
  is_key_char c = true -> c <> "{"%char /\ c <> "}"%char.
Proof.
  intros H. split; intros ->; vm_compute in H; discriminate.
Qed.

Lemma key_free_of_braces (key : string) :
  Js.all_chars is_key_char key = true -> free_of "{" key /\ free_of "}" key.
Proof.
  induction key as [|c key IH]; simpl; intros H; [split; reflexivity|].
  apply andb_true_iff in H. destruct H as [Hc Hk].
  destruct (key_char_no_brace c Hc). destruct (IH Hk).
  split; apply free_of_cons; split; assumption.
Qed.

(** Text without an opening brace holds no token. *)
Lemma replace_tokens_plain f (s : string) :
  free_of "{" s -> replace_tokens f s = s.
Proof.
  induction s as [|c r IH]; intros F.
  - apply replace_tokens_equation_1.
  - apply free_of_cons in F. destruct F as [N F].
    rewrite replace_tokens_cons.
    assert (M : match_token (String c r) = None).
    { unfold match_token. destruct r as [|b r']; [reflexivity|].
      destruct (Ascii.eqb_spec c "{"); [contradiction|reflexivity]. }
    rewrite M, (IH F). reflexivity.
Qed.

Lemma prefix_cons_other (c x : ascii) (pat s : string) :
  x <> c -> String.prefix (String c pat) (String x s) = false.
Proof. intros N. simpl. destruct (ascii_dec c x); [congruence|reflexivity]. Qed.

Lemma indexOf_cons (pat : string) (x : ascii) (s : string) :
  Js.indexOf pat (String x s)
  = if String.prefix pat (String x s) then Some 0
    else option_map S (Js.indexOf pat s).
Proof. reflexivity. Qed.

(** A pattern is not found in text that lacks its first character. *)
Lemma indexOf_absent (c : ascii) (pat s : string) :
  free_of c s -> Js.indexOf (String c pat) s = None.
Proof.
  induction s as [|x s IH]; intros F; [reflexivity|].
  apply free_of_cons in F. destruct F as [N F].
  rewrite indexOf_cons, (prefix_cons_other c x pat s N), (IH F). reflexivity.
Qed.

Lemma indexOf_after (c : ascii) (pat before rest : string) :
  free_of c before ->
  Js.indexOf (String c pat) (before ++ rest)
  = option_map (Nat.add (String.length before)) (Js.indexOf (String c pat) rest).
Proof.
  induction before as [|x b IH]; intros F.
  - simpl. now destruct (Js.indexOf (String c pat) rest).
  - apply free_of_cons in F. destruct F as [N F].
    change (String x b ++ rest) with (String x (b ++ rest)).
    rewrite indexOf_cons, (prefix_cons_other c x pat _ N), (IH F). simpl.
    now destruct (Js.indexOf (String c pat) rest).
Qed.

Lemma indexOf_here (pat rest : string) : Js.indexOf pat (pat ++ rest) = Some 0.
Proof.
  destruct (pat ++ rest) as [|x s] eqn:E.
  - destruct pat; [reflexivity|discriminate].
  - rewrite indexOf_cons, <- E, prefix_append. reflexivity.
Qed.

Lemma substring_prefix (a b : string) :
  String.substring 0 (String.length a) (a ++ b) = a.
Proof. induction a as [|x a IH]; simpl; [now destruct b|]. now rewrite IH. Qed.

Lemma substring_whole (s : string) : String.substring 0 (String.length s) s = s.
Proof. induction s as [|x s IH]; simpl; [reflexivity|]. now rewrite IH. Qed.

Lemma substring_skip (a b : string) (m : nat) :
  String.substring (String.length a) m (a ++ b) = String.substring 0 m b.
Proof. induction a as [|x a IH]; simpl; [reflexivity|]. exact IH. Qed.

Lemma length_append (a b : string) :
  String.length (a ++ b) = String.length a + String.length b.
Proof. induction a as [|x a IH]; simpl; [reflexivity|]. now rewrite IH. Qed.

(** A replacement without a dollar sign stands for itself. *)
Lemma getSubstitution_plain (matched before after template : string) :
  free_of "$" template ->
  Js.getSubstitution matched before after template = template.
Proof.
  induction template as [|c t IH]; intros F; [reflexivity|].
  apply free_of_cons in F. destruct F as [N F]. simpl.
  destruct (Ascii.eqb_spec c "$"); [contradiction|]. now rewrite (IH F).
Qed.

(** The string replacement at the first occurrence of the pattern, when
    the text before it lacks the first character of the pattern. *)
Lemma substring_suffix (a b : string) :
  String.substring (String.length a) (String.length (a ++ b) - String.length a)
    (a ++ b) = b.
Proof.
  rewrite substring_skip, length_append.
  replace (String.length a + String.length b - String.length a)
    with (String.length b) by lia.
  apply substring_whole.
Qed.

Lemma replace_string_first (c : ascii) (pat replacement before after : string) :
  free_of c before ->
  Js.replace_string (String c pat) replacement (before ++ String c pat ++ after)
  = before
    ++ Js.getSubstitution (String c pat) before after replacement
    ++ after.
Proof.
  intros F. unfold Js.replace_string.
  rewrite (indexOf_after c pat before _ F), indexOf_here. simpl option_map.
  rewrite Nat.add_0_r, substring_prefix.
  set (P := String c pat).
  assert (S : String.substring (String.length before + String.length P)
                (String.length (before ++ P ++ after)
                 - (String.length before + String.length P))
                (before ++ P ++ after) = after).
  { rewrite <- (length_append before P), <- (append_assoc before P after).
    apply substring_suffix. }
  now rewrite S.
Qed.

Lemma prefix_cons (a b : ascii) (s t : string) :
  String.prefix (String a s) (String b t)
  = if ascii_dec a b then String.prefix s t else false.
Proof. reflexivity. Qed.

(** A key followed by a closing brace is read off the text in one way. *)
Lemma key_prefix_unique (w key x y : string) :
  free_of "}" w -> free_of "}" key ->
  String.prefix (w ++ String "}" x) (key ++ String "}" y) = true -> w = key.
Proof.
  revert key. induction w as [|a w IH]; intros [|c key] Fw Fk H.
  - reflexivity.
  - apply free_of_cons in Fk.
    change (String.prefix (String "}" x) (String c (key ++ String "}" y)) = true) in H.
    rewrite prefix_cons in H.
    destruct (ascii_dec "}"%char c) as [<-|]; [tauto|discriminate].
  - apply free_of_cons in Fw.
    change (String.prefix (String a (w ++ String "}" x)) (String "}" y) = true) in H.
    rewrite prefix_cons in H.
    destruct (ascii_dec a "}"%char) as [->|]; [tauto|discriminate].
  - apply free_of_cons in Fw, Fk.
    change (String.prefix (String a (w ++ String "}" x))
              (String c (key ++ String "}" y)) = true) in H.
    rewrite prefix_cons in H.
    destruct (ascii_dec a c) as [->|]; [|discriminate].
    f_equal. apply IH; tauto.
Qed.

(** The dedicated placeholder does not occur in plain text around a token
    of another key. *)
Lemma tsedVersion_absent (before key after : string) :
  is_key key -> key <> "tsedVersion" ->
  free_of "{" before -> free_of "{" after ->
  Js.indexOf "{{tsedVersion}}" (before ++ token key ++ after) = None.
Proof.
  intros [Ne K] N Fb Fa.
  destruct (key_free_of_braces key K) as [Fk1 Fk2].
  rewrite (indexOf_after "{" "{tsedVersion}}" before _ Fb).
  unfold token. simpl "++".
  assert (P1 : String.prefix "{{tsedVersion}}"
                 (String "{" (String "{" ((key ++ "}}") ++ after))) = false).
  { rewrite !prefix_cons.
    destruct (ascii_dec "{"%char "{"%char); [|reflexivity].
    destruct (String.prefix "tsedVersion}}" ((key ++ "}}") ++ after)) eqn:P;
      [|reflexivity].
    exfalso. apply N. symmetry.
    apply (key_prefix_unique "tsedVersion" key "}" ("}" ++ after)).
    - reflexivity.
    - exact Fk2.
    - rewrite append_assoc in P. exact P. }
  rewrite indexOf_cons, P1, indexOf_cons.
  destruct key as [|k0 key']; [contradiction|].
  apply free_of_cons in Fk1. destruct Fk1 as [Nk Fk1].
  assert (P2 : String.prefix "{{tsedVersion}}"
                 (String "{" ((String k0 key' ++ "}}") ++ after)) = false).
  { change ((String k0 key' ++ "}}") ++ after)
      with (String k0 ((key' ++ "}}") ++ after)).
    rewrite !prefix_cons.
    destruct (ascii_dec "{"%char "{"%char); [|reflexivity].
    destruct (ascii_dec "{"%char k0) as [<-|]; [contradiction|reflexivity]. }
  rewrite P2.
  assert (R : Js.indexOf "{{tsedVersion}}" ((String k0 key' ++ "}}") ++ after) = None).
  { apply indexOf_absent. rewrite append_assoc.
    apply free_of_app. split; [apply free_of_cons; split; assumption|].
    apply free_of_app. split; [reflexivity|exact Fa]. }
  rewrite R. reflexivity.
Qed.

End PlainText.

(** X7.  A version without an opening brace is stored as it is by both
    batch forms, whatever the scope; a module without a version is stored
    with the empty version, which makes it a placeholder whose install
    target is the name followed by [@]. *)
Theorem plain_version_unchanged (scope : Js.Dict Js.Value) (version pkg : string) :
  free_of "{" version ->
  devVersion scope (Some version) = version
  /\ depVersion scope (Some version) = version
  /\ devVersion scope None = EmptyString
  /\ depVersion scope None = EmptyString
  /\ mapPackagesWithInvalidVersion [(pkg, depVersion scope None)] = [pkg ++ "@"].
Proof.
  intros F.
  assert (N : depVersion scope None = EmptyString).
  { unfold depVersion. simpl version_or_empty.
    change (Js.replace_string "{{tsedVersion}}"
              (Js.toString (Js.prop "tsedVersion" (Js.Obj scope))) EmptyString)
      with EmptyString.
    apply replace_tokens_equation_1. }
  split; [now apply replace_tokens_plain|].
  split.
  { unfold depVersion, Js.replace_string. cbn [version_or_empty].
    rewrite (indexOf_absent "{" "{tsedVersion}}" version F).
    now apply replace_tokens_plain. }
  split; [apply replace_tokens_equation_1|].
  split; [exact N|].
  rewrite N. reflexivity.
Qed.

Lemma plain_version_unchanged_witness :
  free_of "{" "^4.1.0"
  /\ depVersion [("tsedVersion", Js.Str "6.10.3")] (Some "^4.1.0") = "^4.1.0".
Proof.
  assert (F : free_of "{" "^4.1.0") by reflexivity.
  split; [exact F|].
  exact (proj1 (proj2 (plain_version_unchanged
                         [("tsedVersion", Js.Str "6.10.3")] "^4.1.0" "pkg" F))).
Defined.

(** X8.  A token between two pieces of plain text is replaced by the text
    of what the lookup of its key yields, and the plain text around it is
    kept: for [addDevDependencies] with every key, for [addDependencies]
    with every key but [tsedVersion], which has a replacement of its
    own. *)
Theorem token_in_plain_text (scope : Js.Dict Js.Value) (before key after : string) :
  is_key key -> free_of "{" before -> free_of "{" after ->
  devVersion scope (Some (before ++ token key ++ after))
  = before ++ Js.toString (Core.getValue key (Js.Obj scope)) ++ after
  /\ (key <> "tsedVersion" ->
      depVersion scope (Some (before ++ token key ++ after))
      = before ++ Js.toString (Core.getValue key (Js.Obj scope)) ++ after).
Proof.
  intros K Fb Fa.
  assert (R : replace_tokens (replacer scope) (before ++ token key ++ after)
              = before ++ Js.toString (Core.getValue key (Js.Obj scope)) ++ after).
  { rewrite (replace_tokens_token _ before key after K).
    now rewrite (replace_tokens_plain _ before Fb), (replace_tokens_plain _ after Fa). }
  split; [exact R|].
  intros N. unfold depVersion, Js.replace_string. cbn [version_or_empty].
  now rewrite (tsedVersion_absent before key after K N Fb Fa).
Qed.

Lemma token_in_plain_text_witness :
  let scope := [("versions", Js.Obj [("ts", Js.Str "4.0.3"); ("node", Js.Num 14)])] in
  is_key "versions.ts" /\ free_of "{" "~" /\ free_of "{" "-rc"
  /\ "versions.ts" <> "tsedVersion"
  /\ devVersion scope (Some "~{{versions.ts}}-rc") = "~4.0.3-rc"
  /\ depVersion scope (Some "~{{versions.ts}}-rc") = "~4.0.3-rc".
Proof.
  intros scope.
  assert (K : is_key "versions.ts") by (split; [discriminate|reflexivity]).
  assert (Fb : free_of "{" "~") by reflexivity.
  assert (Fa : free_of "{" "-rc") by reflexivity.
  assert (N : "versions.ts" <> "tsedVersion") by discriminate.
  destruct (token_in_plain_text scope "~" "versions.ts" "-rc" K Fb Fa) as [H1 H2].
  split; [exact K|]. split; [exact Fb|]. split; [exact Fa|]. split; [exact N|].
  split; [exact H1|exact (H2 N)].
Defined.

(** X9.  In [addDependencies] the placeholder [{{tsedVersion}}] between
    two pieces of plain text is replaced by the text of [ctx.tsedVersion]
    (the text [undefined] when the context has none), as long as that text
    has neither a dollar sign nor an opening brace; there the result is the
    one the generic lookup of [addDevDependencies] gives. *)
Theorem tsedVersion_placeholder (ctx : Js.Dict Js.Value) (before after : string) :
  let text := Js.toString (Js.prop "tsedVersion" (Js.Obj ctx)) in
  free_of "{" before -> free_of "{" after ->
  free_of "{" text -> free_of "$" text ->
  depVersion ctx (Some (before ++ "{{tsedVersion}}" ++ after))
  = before ++ text ++ after
  /\ devVersion ctx (Some (before ++ "{{tsedVersion}}" ++ after))
     = before ++ text ++ after.
Proof.
  intros text Fb Fa Ft Fd. split.
  - unfold depVersion. cbn [version_or_empty]. fold text.
    rewrite (replace_string_first "{" "{tsedVersion}}" text before after Fb).
    rewrite (getSubstitution_plain _ _ _ text Fd).
    apply replace_tokens_plain.
    apply free_of_app. split; [exact Fb|].
    apply free_of_app. now split.
  - assert (K : is_key "tsedVersion") by (split; [discriminate|reflexivity]).
    unfold devVersion. cbn [version_or_empty].
    change "{{tsedVersion}}" with (token "tsedVersion").
    rewrite (replace_tokens_token _ before "tsedVersion" after K).
    now rewrite (replace_tokens_plain _ before Fb), (replace_tokens_plain _ after Fa).
Qed.

Lemma tsedVersion_placeholder_witness :
  let ctx := [("tsedVersion", Js.Str "6.10.3")] in
  free_of "{" "^" /\ free_of "{" EmptyString
  /\ free_of "{" "6.10.3" /\ free_of "$" "6.10.3"
  /\ depVersion ctx (Some "^{{tsedVersion}}") = "^6.10.3".
Proof.
  intros ctx.
  assert (Fb : free_of "{" "^") by reflexivity.
  assert (Fa : free_of "{" EmptyString) by reflexivity.
  assert (Ft : free_of "{" "6.10.3") by reflexivity.
  assert (Fd : free_of "$" "6.10.3") by reflexivity.
  split; [exact Fb|]. split; [exact Fa|]. split; [exact Ft|]. split; [exact Fd|].
  exact (proj1 (tsedVersion_placeholder ctx "^" EmptyString Fb Fa Ft Fd)).
Defined.

(** ** The pure functions on dependency maps *)

Section Filters.

Context {A : Type}.

Lemma get_filter (f : string * A -> bool) (k : string) (o : Js.Dict A) :
  distinct_keys o ->
  Js.get k (filter f o)
  = match Js.get k o with
    | Some v => if f (k, v) then Some v else None
    | None => None
    end.
Proof.
  unfold distinct_keys.
  induction o as [|[k0 v0] r IH]; simpl; intros D; [reflexivity|].
  inversion D as [|? ? N Dr]; subst.
  destruct (String.eqb_spec k0 k) as [->|Ne].
  - destruct (f (k, v0)) eqn:E; simpl.
    + now rewrite String.eqb_refl.
    + apply get_None_keys. intros I. apply N. exact (keys_filter_In f _ _ I).
  - destruct (f (k0, v0)); simpl.
    + destruct (String.eqb_spec k0 k); [contradiction|]. now apply IH.
    + now apply IH.
Qed.

Lemma filter_none (f : A -> bool) (l : list A) :
  (forall x, In x l -> f x = false) -> filter f l = [].
Proof.
  induction l as [|x l IH]; simpl; intros H; [reflexivity|].
  rewrite (H x (or_introl eq_refl)). apply IH. intros y I. apply H. now right.
Qed.

Lemma filter_nil_iff (f : A -> bool) (l : list A) :
  filter f l = [] <-> forall x, In x l -> f x = false.
Proof.
  split; [|apply filter_none].
  induction l as [|x l IH]; simpl; intros E y I; [contradiction|].
  destruct (f x) eqn:Fx; [discriminate|].
  destruct I as [<-|I]; [exact Fx|now apply IH].
Qed.

End Filters.

(** X10.  [sortKeys] gives a canonical form: two maps with the same
    entries, in whatever order, sort to the same map; a map that is in
    sorted order already is returned as it is; every key keeps its
    value. *)
Theorem sortKeys_canonical {A : Type} (o o' : Js.Dict A) :
  distinct_keys o -> Permutation o o' ->
  sortKeys o = sortKeys o'
  /\ (sorted_keys o -> sortKeys o = o)
  /\ (forall k, Js.get k (sortKeys o) = Js.get k o)
  /\ distinct_keys (sortKeys o).
Proof.
  intros D P.
  assert (D' : distinct_keys o')
    by exact (Permutation_NoDup (Permutation_map fst P) D).
  pose proof (sortKeys_perm o D) as Po. pose proof (sortKeys_perm o' D') as Po'.
  split; [|split; [|split]].
  - apply sorted_perm_eq; try (now apply sortKeys_sorted).
    rewrite <- Po, <- Po'. exact P.
  - intros S. apply sorted_perm_eq; [now apply sortKeys_sorted|exact S|].
    now symmetry.
  - intros k. now apply get_perm.
  - exact (Permutation_NoDup (Permutation_map fst Po) D).
Qed.

Lemma sortKeys_canonical_witness :
  let o := [("zed", "1.0.0"); ("10", "3.0.0"); ("abc", "next"); ("9", "2.0.0")] in
  let o' := [("9", "2.0.0"); ("abc", "next"); ("zed", "1.0.0"); ("10", "3.0.0")] in
  distinct_keys o /\ Permutation o o' /\ sortKeys o = sortKeys o'.
Proof.
  intros o o'.
  assert (D : distinct_keys o) by distinct.
  assert (P : Permutation o o').
  { unfold o, o'.
    apply Permutation_cons_app
      with (l1 := [("9", "2.0.0"); ("abc", "next")]) (l2 := [("10", "3.0.0")]).
    simpl.
    apply Permutation_cons_app
      with (l1 := [("9", "2.0.0"); ("abc", "next")]) (l2 := []).
    simpl. apply Permutation_cons_app with (l1 := [("9", "2.0.0")]) (l2 := []).
    reflexivity. }
  split; [exact D|]. split; [exact P|].
  exact (proj1 (sortKeys_canonical o o' D P)).
Defined.

(** X11.  In the valid partition a package has its version when that
    version is a valid one and is absent otherwise; nothing of the valid
    partition is an install target, and taking the valid partition of it
    again changes no lookup. *)
Theorem valid_partition_lookup (deps : Js.Dict string) (k : string) :
  distinct_keys deps ->
  Js.get k (mapPackagesWithValidVersion deps)
  = match Js.get k deps with
    | Some v => if Semver.valid v then Some v else None
    | None => None
    end
  /\ mapPackagesWithInvalidVersion (mapPackagesWithValidVersion deps) = []
  /\ Js.get k (mapPackagesWithValidVersion (mapPackagesWithValidVersion deps))
     = Js.get k (mapPackagesWithValidVersion deps).
Proof.
  intros D.
  pose proof (mapValid_perm deps D) as P.
  pose proof (distinct_filter has_valid_version deps D) as Df.
  assert (Dv : distinct_keys (mapPackagesWithValidVersion deps))
    by exact (Permutation_NoDup (Permutation_map fst P) Df).
  assert (L : forall d x, distinct_keys d ->
                Js.get x (mapPackagesWithValidVersion d)
                = match Js.get x d with
                  | Some v => if Semver.valid v then Some v else None
                  | None => None
                  end).
  { intros d x Dd.
    rewrite (get_perm x _ _ (distinct_filter has_valid_version d Dd)
               (mapValid_perm d Dd)).
    now rewrite (get_filter has_valid_version x d Dd). }
  split; [now apply L|]. split.
  - unfold mapPackagesWithInvalidVersion. rewrite invalidEntries_filter.
    rewrite filter_none; [reflexivity|].
    intros x I. apply (Permutation_in _ (Permutation_sym P)) in I.
    apply filter_In in I. destruct I as [_ V]. now rewrite V.
  - rewrite (L _ k Dv), (L _ k D).
    destruct (Js.get k deps) as [v|]; [|reflexivity].
    destruct (Semver.valid v) eqn:V; [now rewrite V|reflexivity].
Qed.

Lemma valid_partition_lookup_witness :
  let deps := [("a", "1.0.0"); ("b", "next"); ("c", "^2.0.0")] in
  distinct_keys deps
  /\ Js.get "a" (mapPackagesWithValidVersion deps) = Some "1.0.0"
  /\ Js.get "c" (mapPackagesWithValidVersion deps) = None.
Proof.
  intros deps.
  assert (D : distinct_keys deps) by distinct.
  split; [exact D|]. split.
  - rewrite (proj1 (valid_partition_lookup deps "a" D)). reflexivity.
  - rewrite (proj1 (valid_partition_lookup deps "c" D)). reflexivity.
Defined.

(** X12.  There is no install target exactly when every version of the map
    is a valid one; there is one target for each entry with an invalid
    version, in the order of the map, so the targets and the entries of
    the valid partition add up to the entries of the map. *)
Theorem install_targets_count (deps : Js.Dict string) :
  (mapPackagesWithInvalidVersion deps = []
   <-> forall k v, In (k, v) deps -> Semver.valid v = true)
  /\ List.length (mapPackagesWithInvalidVersion deps)
     + List.length (filter has_valid_version deps)
     = List.length deps
  /\ (distinct_keys deps ->
      List.length (mapPackagesWithInvalidVersion deps)
      + List.length (mapPackagesWithValidVersion deps)
      = List.length deps)
  /\ mapPackagesWithInvalidVersion []  = [].
Proof.
  assert (C : List.length (mapPackagesWithInvalidVersion deps)
              + List.length (filter has_valid_version deps)
              = List.length deps).
  { unfold mapPackagesWithInvalidVersion. rewrite length_map, invalidEntries_filter.
    rewrite Nat.add_comm, <- length_app.
    exact (Permutation_length (filter_partition_perm has_valid_version deps)). }
  split; [|split; [exact C|split; [|reflexivity]]].
  - unfold mapPackagesWithInvalidVersion. rewrite invalidEntries_filter. split.
    + intros E k v I. apply map_eq_nil in E.
      pose proof (proj1 (filter_nil_iff _ _) E (k, v) I) as H.
      now apply negb_false_iff in H.
    + intros H. rewrite filter_none; [reflexivity|].
      intros [k v] I. apply negb_false_iff. exact (H k v I).
  - intros D. rewrite <- (Permutation_length (mapValid_perm deps D)). exact C.
Qed.

(** ** The task lists *)

Section TaskLists.

Lemma no_targets_iff (deps : Js.Dict string) :
  is_empty (mapPackagesWithInvalidVersion deps) = true
  <-> forall k v, In (k, v) deps -> Semver.valid v = true.
Proof.
  unfold mapPackagesWithInvalidVersion. rewrite invalidEntries_filter.
  assert (E : forall l : list string, is_empty l = true <-> l = []).
  { intros [|x l]; simpl; split; congruence. }
  rewrite E. split.
  - intros H k v I. apply map_eq_nil in H.
    pose proof (proj1 (filter_nil_iff _ _) H (k, v) I) as V.
    now apply negb_false_iff in V.
  - intros H. rewrite filter_none; [reflexivity|].
    intros [k v] I. apply negb_false_iff. exact (H k v I).
Qed.

Lemma truthy_strings (l : list string) :
  Js.filter_Boolean (map Js.Str l) = map Js.Str (nonempty_strings l).
Proof.
  unfold Js.filter_Boolean, nonempty_strings.
  induction l as [|s l IH]; simpl; [reflexivity|].
  destruct s; simpl; now rewrite IH.
Qed.

Lemma verbose_argument (options : InstallOptions) :
  Js.filter_Boolean [Js.and_ (verbose options) (Js.Str "--verbose")]
  = verbose_flag options.
Proof.
  unfold Js.filter_Boolean, Js.and_, verbose_flag.
  destruct (Js.truthy (verbose options)) eqn:T; simpl; [reflexivity|].
  now rewrite T.
Qed.

Lemma arguments (options : InstallOptions) (fixed : list string) (targets : list string) :
  forallb Semver.nonempty fixed = true ->
  Js.filter_Boolean
    (map Js.Str fixed ++ [Js.and_ (verbose options) (Js.Str "--verbose")]
     ++ map Js.Str targets)%list
  = (map Js.Str fixed ++ verbose_flag options
     ++ map Js.Str (nonempty_strings targets))%list.
Proof.
  intros F. unfold Js.filter_Boolean. rewrite !filter_app.
  fold (Js.filter_Boolean [Js.and_ (verbose options) (Js.Str "--verbose")]).
  fold (Js.filter_Boolean (map Js.Str targets)).
  fold (Js.filter_Boolean (map Js.Str fixed)).
  rewrite verbose_argument, !truthy_strings. f_equal.
  unfold nonempty_strings. f_equal.
  induction fixed as [|s l IH]; simpl in *; [reflexivity|].
  apply andb_true_iff in F. destruct F as [Fs Fl]. rewrite Fs. f_equal. now apply IH.
Qed.

End TaskLists.

(** X13.  Whether the two add tasks are skipped is settled when [install]
    builds the list, from the manifest of that moment: the task is skipped
    exactly when every version of its map is a valid one, whatever the
    manifest is when the task is reached.  The bulk install task reads the
    reinstall flag when it is reached.  None of the three tasks is ever
    left out, and both backends decide alike. *)
Theorem add_tasks_skip_is_fixed (options : InstallOptions) (p0 p : ProjectPackageJson) :
  let all_valid (deps : Js.Dict string) :=
    forall k v, In (k, v) deps -> Semver.valid v = true in
  map (fun t => is_skipped t p) (installWithYarn options p0)
  = map (fun t => is_skipped t p) (installWithNpm options p0)
  /\ map (fun t => is_enabled t p) (installWithYarn options p0 ++ installWithNpm options p0)
     = [true; true; true; true; true; true]
  /\ (exists s1 s2,
        map (fun t => is_skipped t p) (installWithNpm options p0)
        = [negb (reinstall p); s1; s2]
        /\ (s1 = true <-> all_valid (dependencies (raw p0)))
        /\ (s2 = true <-> all_valid (devDependencies (raw p0)))).
Proof.
  intros all_valid. split; [reflexivity|]. split; [reflexivity|].
  exists (is_empty (mapPackagesWithInvalidVersion (dependencies (raw p0)))),
         (is_empty (mapPackagesWithInvalidVersion (devDependencies (raw p0)))).
  split; [reflexivity|]. split; apply no_targets_iff.
Qed.

(** X14.  The command lines of the two backends: the fixed words, then
    [--verbose] when the option is truthy and nothing in its place
    otherwise, then the install targets, of which an empty one is dropped.
    The yarn tasks go through the error selector, the npm tasks through
    none; all run in the project directory. *)
Theorem backend_commands (options : InstallOptions) (p : ProjectPackageJson) :
  let flag := verbose_flag options in
  let deps :=
    map Js.Str (nonempty_strings (mapPackagesWithInvalidVersion (dependencies (raw p)))) in
  let devDeps :=
    map Js.Str
        (nonempty_strings (mapPackagesWithInvalidVersion (devDependencies (raw p)))) in
  map task (installWithYarn options p)
  = [ CallRun "yarn" ([Js.Str "install"; Js.Str "--production=false"] ++ flag)%list
        (dir p) (Some yarnErrorPipe);
      CallRun "yarn" ([Js.Str "add"] ++ flag ++ deps)%list (dir p) (Some yarnErrorPipe);
      CallRun "yarn" ([Js.Str "add"; Js.Str "-D"] ++ flag ++ devDeps)%list
        (dir p) (Some yarnErrorPipe) ]
  /\ map task (installWithNpm options p)
     = [ CallRun "npm" ([Js.Str "install"; Js.Str "--no-production"] ++ flag)%list
           (dir p) None;
         CallRun "npm" ([Js.Str "install"; Js.Str "--save"] ++ flag ++ deps)%list
           (dir p) None;
         CallRun "npm" ([Js.Str "install"; Js.Str "--save-dev"] ++ flag ++ devDeps)%list
           (dir p) None ].
Proof.
  intros flag deps devDeps.
  assert (B : forall fixed, forallb Semver.nonempty fixed = true ->
                Js.filter_Boolean
                  (map Js.Str fixed ++ [Js.and_ (verbose options) (Js.Str "--verbose")])%list
                = (map Js.Str fixed ++ flag)%list).
  { intros fixed F. pose proof (arguments options fixed [] F) as H.
    simpl in H. now rewrite !app_nil_r in H. }
  unfold installWithYarn, installWithNpm. cbv zeta. cbn [map task].
  split; repeat f_equal;
    first [ exact (B ["install"; "--production=false"] eq_refl)
          | exact (B ["install"; "--no-production"] eq_refl)
          | exact (arguments options ["add"] _ eq_refl)
          | exact (arguments options ["add"; "-D"] _ eq_refl)
          | exact (arguments options ["install"; "--save"] _ eq_refl)
          | exact (arguments options ["install"; "--save-dev"] _ eq_refl) ].
Qed.

(** ** The install cycle *)

Section Cycle.

Context {World : Type} (io : Collaborators World).




End Cycle.



(** X16.  When the bulk install of the npm backend fails and there was
    nothing to write, the cycle fails with the failure of the subprocess
    and the service is as it was: the manifest is not re-read and the
    reinstall flag is still set, so the install is still pending. *)
Theorem failed_install_keeps_state
  {World : Type} (io : Collaborators World)
  (options : InstallOptions) (p : ProjectPackageJson) (w w' : World)
  (message stderr : string) :
  packageManager options = Some npm ->
  rewrite p = false ->
  reinstall p = true ->
  run io "npm"
      ([Js.Str "install"; Js.Str "--no-production"] ++ verbose_flag options)%list
      (dir p) w
  = (Failed message stderr, w') ->
  runInstall io options p w = (Js.Throw (Js.ExecaError message stderr), p, w').
Proof.
  intros M Rw Ri F.
  unfold runInstall, install, chooseBackend. rewrite M.
  assert (A : Js.filter_Boolean
                [Js.Str "install"; Js.Str "--no-production";
                 Js.and_ (verbose options) (Js.Str "--verbose")]
              = ([Js.Str "install"; Js.Str "--no-production"]
                 ++ verbose_flag options)%list).
  { pose proof (arguments options ["install"; "--no-production"] [] eq_refl) as H.
    simpl in H. rewrite !app_nil_r in H. exact H. }
  unfold installWithNpm. cbv zeta. rewrite A.
  cbn [app runTasks]. unfold is_enabled, is_skipped.
  cbn [writeTask enabled skip task]. rewrite Rw, Ri.
  cbn [negb perform]. cbn [app] in F. rewrite F. reflexivity.
Qed.

Lemma failed_install_keeps_state_witness :
  let options := {| packageManager := Some npm; verbose := Js.Undefined |} in
  let p := with_rewrite false
             (addDependency "pkg" "1.0.0" (Fixture.project [] [])) in
  let w := Fixture.failing "Command failed with exit code 1" "npm ERR! network" in
  packageManager options = Some npm
  /\ rewrite p = false /\ reinstall p = true
  /\ run Fixture.io "npm" [Js.Str "install"; Js.Str "--no-production"] "/work" w
     = (Failed "Command failed with exit code 1" "npm ERR! network", w)
  /\ runInstall Fixture.io options p w
     = (Js.Throw (Js.ExecaError "Command failed with exit code 1" "npm ERR! network"),
        p, w).
Proof.
  intros options p w.
  split; [reflexivity|]. split; [reflexivity|]. split; [reflexivity|].
  split; [reflexivity|].
  exact (failed_install_keeps_state Fixture.io options p w w _ _
           eq_refl eq_refl eq_refl eq_refl).
Defined.

(** X17.  [runScript] runs [npm run <task>] in the project directory; with
    [ignoreError] it ends normally whatever the subprocess does, without
    it a failure of the subprocess is the failure of the call, unchanged.
    Either way the service object is not part of the result, and the
    world is left as the subprocess left it. *)
Theorem runScript_errors
  {World : Type} (io : Collaborators World)
  (npmTask : string) (p : ProjectPackageJson) (w : World) :
  let outcome := run io "npm" [Js.Str "run"; Js.Str npmTask] (dir p) w in
  fst (runScript io npmTask true p w) = Js.Normal tt
  /\ (forall ignoreError, snd (runScript io npmTask ignoreError p w) = snd outcome)
  /\ (forall message stderr,
        fst outcome = Failed message stderr ->
        fst (runScript io npmTask false p w)
        = Js.Throw (Js.ExecaError message stderr))
  /\ (fst outcome = Completed ->
      forall ignoreError, fst (runScript io npmTask ignoreError p w) = Js.Normal tt).
Proof.
  intros outcome. unfold runScript. fold outcome.
  destruct outcome as [[|m s] w1]; simpl.
  - repeat split; try discriminate.
  - split; [reflexivity|]. split; [now intros []|].
    split; [now intros ? ? [= -> ->]|discriminate].
Qed.

(** ** Reading the manifest *)

Section Reading.



End Reading.

(** X18.  [read] replaces the manifest and nothing else of what the
    service shows: both flags, the project name and [rootDir] (hence [dir])
    are as before; only [project.root] may be set.  When the command is
    [init] and the project directory has no [package.json], or when no
    manifest is found, or when the one found has no path, the manifest is
    the empty one named after the project. *)
Theorem read_keeps_flags
  {World : Type} (io : Collaborators World) (p : ProjectPackageJson) (w : World) :
  let p' := read io p w in
  let empty := getEmptyPackageJson (configuration p) in
  (rewrite p' = rewrite p /\ reinstall p' = reinstall p /\ dir p' = dir p
   /\ configuration_name (configuration p') = configuration_name (configuration p))
  /\ (argv_includes_init io = true ->
      existsSync io (join io (dir p) "package.json") w = false ->
      raw p' = empty /\ configuration p' = configuration p)
  /\ (readPkgUp_sync io (dir p) w = None ->
      raw p' = empty /\ configuration p' = configuration p)
  /\ (forall result,
        readPkgUp_sync io (dir p) w = Some result -> path result = EmptyString ->
        raw p' = empty /\ configuration p' = configuration p).
Proof.
  intros p' empty. subst p' empty. unfold read, getPackageJson, useReadPkgUp, dir.
  split; [|split; [|split]].
  - destruct (negb _); [|repeat split].
    destruct (readPkgUp_sync io (rootDir (configuration p)) w) as [result|];
      [|repeat split].
    destruct (Semver.nonempty (path result)); repeat split.
  - intros -> ->. simpl. split; reflexivity.
  - intros ->. destruct (negb _); split; reflexivity.
  - intros result -> ->. destruct (negb _); split; reflexivity.
Qed.



(** ** The manifest as an object *)

Section ManifestObject.

Lemma object_of_declared (r : PackageJson) :
  object_of r = Js.spread (declared r) (extra r).
Proof. reflexivity. Qed.

Lemma object_of_has (r : PackageJson) (k : string) :
  In k declared_keys -> Js.has k (object_of r) = true.
Proof.
  intros I. apply has_true. rewrite object_of_declared.
  apply keys_spread_In. now left.
Qed.

Lemma keys_set_present {A} (k : string) (v : A) (o : Js.Dict A) :
  Js.has k o = true -> Js.keys (Js.set k v o) = Js.keys o.
Proof. intros H. unfold Js.set. rewrite H. apply keys_update. Qed.

Lemma get_object_of (r : PackageJson) (k : string) :
  tidy r ->
  Js.get k (object_of r)
  = if existsb (String.eqb k) declared_keys
    then Js.get k (declared r)
    else Js.get k (extra r).
Proof.
  intros [D N]. rewrite object_of_declared, (get_spread k _ _ D).
  destruct (existsb (String.eqb k) declared_keys) eqn:E.
  - assert (I : In k declared_keys).
    { apply existsb_exists in E. destruct E as [x [I Q]].
      apply String.eqb_eq in Q. now subst x. }
    pose proof (proj2 (get_None_keys k (extra r)) (N k I)) as G.
    now rewrite G.
  - destruct (Js.get k (extra r)) eqn:G; [reflexivity|].
    apply get_None_keys. intros I. simpl in I.
    assert (X : existsb (String.eqb k) declared_keys = true).
    { apply existsb_exists. exists k. split; [|apply String.eqb_refl].
      simpl. intuition. }
    congruence.
Qed.



End ManifestObject.

(** X20.  The object that [write] serializes has the keys of the manifest
    in the order of the manifest, and every field but [dependencies] and
    [devDependencies] with the value of the manifest: no other field is
    filtered, sorted or dropped. *)
Theorem write_json_keeps_other_fields (r : PackageJson) :
  Js.keys (write_json r) = Js.keys (object_of r)
  /\ (forall key, key <> "dependencies" -> key <> "devDependencies" ->
        Js.get key (write_json r) = Js.get key (object_of r))
  /\ (tidy r ->
      Js.get "scripts" (write_json r) = Some (Js.Obj (strings (scripts r)))
      /\ Js.get "name" (write_json r) = Some (Js.Str (name r))
      /\ forall key, ~ In key declared_keys ->
           Js.get key (write_json r) = Js.get key (extra r)).
Proof.
  assert (F : forall key, key <> "dependencies" -> key <> "devDependencies" ->
                Js.get key (write_json r) = Js.get key (object_of r)).
  { intros key N1 N2. unfold write_json. now rewrite !get_set_other. }
  split; [|split; [exact F|]].
  - unfold write_json. rewrite !keys_set_present; [reflexivity| |].
    + apply object_of_has. simpl. tauto.
    + apply has_true, keys_set_In. right. apply has_true, object_of_has.
      simpl. tauto.
  - intros T. split; [|split].
    + rewrite F by discriminate. now rewrite (get_object_of r _ T).
    + rewrite F by discriminate. now rewrite (get_object_of r _ T).
    + intros key N. rewrite F.
      * rewrite (get_object_of r _ T).
        destruct (existsb (String.eqb key) declared_keys) eqn:E; [|reflexivity].
        exfalso. apply N. apply existsb_exists in E. destruct E as [x [I Q]].
        apply String.eqb_eq in Q. now subst x.
      * intros ->. apply N. simpl. tauto.
      * intros ->. apply N. simpl. tauto.
Qed.

Lemma write_json_keeps_other_fields_witness :
  let r := {| name := "demo"; version := "1.0.0"; description := EmptyString;
              scripts := [("start", "{{cmd}}")]; dependencies := [("a", "next")];
              devDependencies := [];
              extra := [("peerDependencies", Js.Obj [("react", Js.Str "next")])] |} in
  tidy r
  /\ Js.get "scripts" (write_json r) = Some (Js.Obj [("start", Js.Str "{{cmd}}")])
  /\ Js.get "peerDependencies" (write_json r)
     = Some (Js.Obj [("react", Js.Str "next")]).
Proof.
  intros r.
  assert (T : tidy r).
  { split; [distinct|]. intros k I [H|[]]. subst k.
    simpl in I. intuition discriminate. }
  destruct (proj2 (proj2 (write_json_keeps_other_fields r)) T) as (S & _ & O).
  split; [exact T|]. split; [exact S|].
  rewrite O; [reflexivity|]. simpl. intuition discriminate.
Defined.

Section SetGet.






End SetGet.



Section Search.

Import GenerateCmd.

Lemma toLowerCase_app (a b : string) :
  toLowerCase (a ++ b) = toLowerCase a ++ toLowerCase b.
Proof. induction a as [|c a IH]; [reflexivity|]. simpl. now rewrite IH. Qed.

Lemma prefix_split (pat s : string) :
  String.prefix pat s = true -> exists rest, s = pat ++ rest.
Proof.
  revert s. induction pat as [|c pat IH]; intros s P.
  - now exists s.
  - destruct s as [|x s]; [discriminate|]. rewrite prefix_cons in P.
    destruct (ascii_dec c x) as [->|]; [|discriminate].
    destruct (IH s P) as [rest ->]. now exists rest.
Qed.

Lemma indexOf_found (pat s : string) :
  Js.indexOf pat s <> None <-> exists before rest, s = before ++ pat ++ rest.
Proof.
  split.
  - induction s as [|x s IH]; intros F.
    + destruct pat; [|now elim F]. now exists EmptyString, EmptyString.
    + rewrite indexOf_cons in F.
      destruct (String.prefix pat (String x s)) eqn:P.
      * destruct (prefix_split _ _ P) as [rest E].
        exists EmptyString, rest. exact E.
      * destruct (Js.indexOf pat s); [|now elim F].
        destruct IH as (before & rest & ->); [discriminate|].
        now exists (String x before), rest.
  - intros (before & rest & ->). induction before as [|x b IH].
    + simpl. now rewrite indexOf_here.
    + change (String x b ++ pat ++ rest) with (String x (b ++ pat ++ rest)).
      rewrite indexOf_cons.
      destruct (String.prefix pat (String x (b ++ pat ++ rest))); [discriminate|].
      destruct (Js.indexOf pat (b ++ pat ++ rest)); [discriminate|now elim IH].
Qed.

Lemma includes_iff (s k : string) :
  includes s k = true <-> exists before rest, s = before ++ k ++ rest.
Proof.
  rewrite <- indexOf_found. unfold includes.
  destruct (Js.indexOf k s); split; intros H; try reflexivity; try discriminate.
  now elim H.
Qed.

Lemma filter_twice {A} (f : A -> bool) (l : list A) :
  filter f (filter f l) = filter f l.
Proof.
  induction l as [|x l IH]; [reflexivity|]. simpl.
  destruct (f x) eqn:E; [|exact IH]. simpl. now rewrite E, IH.
Qed.

End Search.

(** X22.  The search of the autocomplete prompts returns the whole list
    while nothing is typed (the keyword is [undefined] or empty).  For a
    typed keyword it keeps, in the order of the list, exactly the choices
    whose name contains the keyword when both are put in lower case: a
    choice whose name contains a word that differs from the keyword in
    letter case only is found.  The search looks at the names only, never
    at the values, and searching the result again changes nothing. *)
Theorem searchFactory_matches (choices : list GenerateCmd.Choice) :
  GenerateCmd.searchFactory choices None = choices
  /\ GenerateCmd.searchFactory choices (Some EmptyString) = choices
  /\ (forall c r item,
        In item (GenerateCmd.searchFactory choices (Some (String c r)))
        <-> In item choices
            /\ exists before rest,
                 GenerateCmd.toLowerCase (GenerateCmd.name item)
                 = before ++ GenerateCmd.toLowerCase (String c r) ++ rest)
  /\ (forall c r item before word rest,
        In item choices ->
        GenerateCmd.name item = before ++ word ++ rest ->
        GenerateCmd.toLowerCase word = GenerateCmd.toLowerCase (String c r) ->
        In item (GenerateCmd.searchFactory choices (Some (String c r))))
  /\ (forall keyword,
        map GenerateCmd.name (GenerateCmd.searchFactory choices keyword)
        = map GenerateCmd.name
              (GenerateCmd.searchFactory
                 (map (fun item => {| GenerateCmd.name := GenerateCmd.name item;
                                      GenerateCmd.value := EmptyString |})
                      choices)
                 keyword))
  /\ (forall keyword,
        GenerateCmd.searchFactory (GenerateCmd.searchFactory choices keyword) keyword
        = GenerateCmd.searchFactory choices keyword).
Proof.
  split; [reflexivity|]. split; [reflexivity|].
  assert (M : forall c r item,
             In item (GenerateCmd.searchFactory choices (Some (String c r)))
             <-> In item choices
                 /\ exists before rest,
                      GenerateCmd.toLowerCase (GenerateCmd.name item)
                      = before ++ GenerateCmd.toLowerCase (String c r) ++ rest).
  { intros c r item. unfold GenerateCmd.searchFactory.
    cbn [Semver.nonempty]. rewrite filter_In, includes_iff. reflexivity. }
  split; [exact M|]. split; [|split].
  - intros c r item before word rest I N W. apply M. split; [exact I|].
    exists (GenerateCmd.toLowerCase before), (GenerateCmd.toLowerCase rest).
    now rewrite N, !toLowerCase_app, W.
  - intros [k|]; [|cbn; rewrite map_map; reflexivity].
    unfold GenerateCmd.searchFactory.
    destruct (Semver.nonempty k); [|rewrite map_map; reflexivity].
    clear M. induction choices as [|x l IH]; [reflexivity|].
    cbn [map filter GenerateCmd.name].
    destruct (GenerateCmd.includes (GenerateCmd.toLowerCase (GenerateCmd.name x))
                                   (GenerateCmd.toLowerCase k));
      cbn [map GenerateCmd.name]; rewrite IH; reflexivity.
  - intros [k|]; [|reflexivity]. unfold GenerateCmd.searchFactory.
    destruct (Semver.nonempty k); [|reflexivity]. apply filter_twice.
Qed.

(** X23.  An install with nothing pending touches nothing: when neither
    flag is set and every version of both maps is a valid version, the run
    of the task list of [install] starts no subprocess and writes no file,
    whatever the backend; all it does is the clean-up task, which reads
    the manifest again. *)
Theorem idle_install_only_cleans
  {World : Type} (io : Collaborators World)
  (options : InstallOptions) (p : ProjectPackageJson) (w : World) :
  rewrite p = false -> reinstall p = false ->
  mapPackagesWithInvalidVersion (dependencies (raw p)) = [] ->
  mapPackagesWithInvalidVersion (devDependencies (raw p)) = [] ->
  runInstall io options p w
  = perform io CallClean p (snd (chooseBackend io options w)).
Proof.
  intros Rw Ri D V. unfold runInstall, install.
  destruct (chooseBackend io options w) as [backend w']. cbn [snd].
  cbn [app runTasks]. unfold is_enabled at 1. cbn [writeTask enabled].
  rewrite Rw. cbn [negb].
  destruct backend; unfold installWithNpm, installWithYarn; cbv zeta;
    rewrite D, V; cbn [app runTasks]; unfold is_enabled, is_skipped;
    cbn [enabled skip cleanTask task negb is_empty]; rewrite Ri; cbn [negb];
    destruct (perform io CallClean p w') as [[[u|e] p'] w'']; try reflexivity;
    now destruct u.
Qed.

Lemma idle_install_only_cleans_witness :
  let options := {| packageManager := Some npm; verbose := Js.Undefined |} in
  let p := Fixture.project [("a", "1.0.0")] [("b", "2.1.0")] in
  runInstall Fixture.io options p Fixture.fresh
  = (Js.Normal tt, read Fixture.io p Fixture.fresh, Fixture.fresh).
Proof.
  intros options p.
  rewrite (idle_install_only_cleans Fixture.io options p Fixture.fresh
             eq_refl eq_refl eq_refl eq_refl).
  reflexivity.
Defined.
